(** * dashcam-telemetry: the YOUQINGGPS chunk parser and the track model

    A shallow embedding of
      - [utils/nmea.py]       (the NMEA angle codec),
      - [parsers/youqing.py]  (format detector, chunk scanner, record decoder),
      - [models.py]           ([GPSPoint], [GPSTrack], [is_valid], [filter_valid]),
    followed by the properties the specification states about them.

    Conventions of the embedding.
      - [bytes] objects are [list byte]; offsets and lengths are [nat]
        (no negative index is ever formed by the modelled code).
      - A Python [float] is a [pyfloat]: an exact rational, an infinity or
        NaN.  Arithmetic on finite values is exact (no rounding), the special
        values follow IEEE-754.  The sign of zero is not represented; the
        modelled code never observes it.
      - A computation that may raise is an [outcome]; [try]/[except] is a
        match on it.  Library calls raise what CPython raises: [int] on NaN
        or an infinity, [struct.unpack] on a buffer of the wrong size,
        [datetime] on an argument outside a C [int] ([OverflowError]) or
        outside the calendar ([ValueError]).
      - Track objects are values in a heap ([gmap]) addressed by identity,
        so that a method can be seen to leave its receiver alone.
      - The [while True] loop of [parse] runs on fuel; that the fuel given
        by [parse] always suffices is a theorem ([parse_loop_terminates]). *)

From Stdlib Require Import ZArith QArith Qabs Qround List Sorted Bool Lia Lqa.
From Stdlib.Strings Require Import Ascii String Byte.
From stdpp Require Import base option gmap strings.
Import ListNotations.

Local Open Scope nat_scope.

(* ------------------------------------------------------------------ *)
(** ** Exceptions and outcomes *)

Inductive exn : Type :=
| ValueError
| OverflowError
| ZeroDivisionError
| StructError          (* struct.error *)
| ParseError.          (* dashcam_telemetry.parsers.base.ParseError *)

Inductive outcome (A : Type) : Type :=
| Ret (a : A)
| Raise (e : exn).
Arguments Ret {A} a.
Arguments Raise {A} e.

Definition bind {A B : Type} (c : outcome A) (k : A -> outcome B) : outcome B :=
  match c with
  | Ret a => k a
  | Raise e => Raise e
  end.

Declare Scope outcome_scope.
Delimit Scope outcome_scope with outcome.
Notation "'do' x <- c ; k" := (bind c (fun x => k))
  (at level 10, x name, c at level 100, k at level 200) : outcome_scope.
Local Open Scope outcome_scope.

(** [except ValueError: fallback] around [c]. *)
Definition except_ValueError {A : Type} (c : outcome A) (fallback : A) : outcome A :=
  match c with
  | Raise ValueError => Ret fallback
  | other => other
  end.

(** [except Exception: fallback] around [c]: every modelled exception is an
    [Exception]. *)
Definition except_Exception {A : Type} (c : outcome A) (fallback : A) : A :=
  match c with
  | Ret a => a
  | Raise _ => fallback
  end.

(* ------------------------------------------------------------------ *)
(** ** Byte strings *)

Definition bytes : Type := list byte.

(** [b[i:j]] for [0 <= i], [0 <= j]: clamped at the end like Python's slices. *)
Definition slice (b : bytes) (i j : nat) : bytes := firstn (j - i) (skipn i b).

Fixpoint bytes_eqb (a b : bytes) : bool :=
  match a, b with
  | [], [] => true
  | x :: a', y :: b' => Byte.eqb x y && bytes_eqb a' b'
  | _, _ => false
  end.

(** [l] starts with [sub]. *)
Fixpoint starts_with (sub l : bytes) : bool :=
  match sub, l with
  | [], _ => true
  | x :: sub', y :: l' => Byte.eqb x y && starts_with sub' l'
  | _ :: _, [] => false
  end.

(** Scan of [l], the suffix of the buffer that starts at index [i]. *)
Fixpoint find_from (sub l : bytes) (i : nat) : option nat :=
  if starts_with sub l then Some i
  else match l with
       | [] => None
       | _ :: l' => find_from sub l' (S i)
       end.

(** [content.find(sub, start)]: the lowest index [>= start] at which [sub]
    occurs, [None] standing for Python's [-1]. *)
Definition find (content sub : bytes) (start : nat) : option nat :=
  if start <=? length content then find_from sub (skipn start content) start
  else None.

(** [f.read(n)] on a file holding [content], for a byte count kept in binary. *)
Fixpoint read_at_most (n : N) (content : bytes) : bytes :=
  match content with
  | [] => []
  | x :: rest => if N.eqb n 0 then [] else x :: read_at_most (N.pred n) rest
  end.

(** [struct.unpack("<I", b)[0]]. *)
Definition unpack_u32 (b : bytes) : outcome Z :=
  match b with
  | [b0; b1; b2; b3] =>
      Ret (Z.lor (Z.of_N (Byte.to_N b0))
          (Z.lor (Z.shiftl (Z.of_N (Byte.to_N b1)) 8)
          (Z.lor (Z.shiftl (Z.of_N (Byte.to_N b2)) 16)
                 (Z.shiftl (Z.of_N (Byte.to_N b3)) 24))))
  | _ => Raise StructError
  end.

(** [b.decode("ascii", errors="replace")]: a [str] as its code points; a byte
    outside ASCII becomes U+FFFD. *)
Definition REPLACEMENT_CHARACTER : N := 65533.

Definition code_point (x : byte) : N :=
  if N.ltb (Byte.to_N x) 128 then Byte.to_N x else REPLACEMENT_CHARACTER.

Definition decode_ascii_replace (b : bytes) : list N := map code_point b.

Definition ord (c : ascii) : N := N_of_ascii c.

(* ------------------------------------------------------------------ *)
(** ** Floats *)

Inductive pyfloat : Type :=
| Finite (q : Q)
| Inf (negative : bool)
| NaN.

Definition float_of_int (z : Z) : pyfloat := Finite (inject_Z z).

(** Truncation toward zero of a rational. *)
Definition Qtrunc (q : Q) : Z := Z.quot (Qnum q) (Zpos (Qden q)).

(** [int(x)]. *)
Definition py_int (x : pyfloat) : outcome Z :=
  match x with
  | Finite q => Ret (Qtrunc q)
  | Inf _ => Raise OverflowError
  | NaN => Raise ValueError
  end.

Definition Qis_zero (q : Q) : bool := Z.eqb (Qnum q) 0.
Definition Qis_neg (q : Q) : bool := Z.ltb (Qnum q) 0.

(** [x == y]. *)
Definition feq (x y : pyfloat) : bool :=
  match x, y with
  | Finite a, Finite b => Qeq_bool a b
  | Inf s, Inf t => Bool.eqb s t
  | _, _ => false
  end.

(** [x <= y]. *)
Definition fle (x y : pyfloat) : bool :=
  match x, y with
  | NaN, _ | _, NaN => false
  | Finite a, Finite b => Qle_bool a b
  | Inf true, _ => true
  | _, Inf false => true
  | Inf false, _ => false
  | _, Inf true => false
  end.

(** [x < y]. *)
Definition flt (x y : pyfloat) : bool :=
  match x, y with
  | NaN, _ | _, NaN => false
  | Finite a, Finite b => negb (Qle_bool b a)
  | Inf s, Inf t => s && negb t
  | Inf true, Finite _ => true
  | Finite _, Inf false => true
  | Inf false, Finite _ => false
  | Finite _, Inf true => false
  end.

Definition fneg (x : pyfloat) : pyfloat :=
  match x with
  | Finite q => Finite (- q)
  | Inf s => Inf (negb s)
  | NaN => NaN
  end.

Definition fabs (x : pyfloat) : pyfloat :=
  match x with
  | Finite q => Finite (Qabs q)
  | Inf _ => Inf false
  | NaN => NaN
  end.

Definition fadd (x y : pyfloat) : pyfloat :=
  match x, y with
  | NaN, _ | _, NaN => NaN
  | Finite a, Finite b => Finite (a + b)
  | Inf s, Inf t => if Bool.eqb s t then Inf s else NaN
  | Inf s, Finite _ => Inf s
  | Finite _, Inf t => Inf t
  end.

Definition fsub (x y : pyfloat) : pyfloat := fadd x (fneg y).

Definition fmul (x y : pyfloat) : pyfloat :=
  match x, y with
  | NaN, _ | _, NaN => NaN
  | Finite a, Finite b => Finite (a * b)
  | Inf s, Inf t => Inf (xorb s t)
  | Inf s, Finite b => if Qis_zero b then NaN else Inf (xorb s (Qis_neg b))
  | Finite a, Inf t => if Qis_zero a then NaN else Inf (xorb (Qis_neg a) t)
  end.

(** [x / y]: Python raises on a zero divisor. *)
Definition fdiv (x y : pyfloat) : outcome pyfloat :=
  match x, y with
  | _, Finite b =>
      if Qis_zero b then Raise ZeroDivisionError
      else Ret (match x with
                | Finite a => Finite (a / b)
                | Inf s => Inf (xorb s (Qis_neg b))
                | NaN => NaN
                end)
  | NaN, _ | _, NaN => Ret NaN
  | Inf _, Inf _ => Ret NaN
  | Finite _, Inf _ => Ret (Finite 0)
  end.

(** The value of the IEEE-754 binary32 word [w] ([0 <= w < 2^32]). *)
Definition f32_of_bits (w : Z) : pyfloat :=
  let sign := Z.testbit w 31 in
  let e := Z.land (Z.shiftr w 23) 255 in
  let m := Z.land w (Z.ones 23) in
  if Z.eqb e 255 then (if Z.eqb m 0 then Inf sign else NaN)
  else
    let significand := if Z.eqb e 0 then m else Z.lor m (Z.shiftl 1 23) in
    let exponent := ((if Z.eqb e 0 then 1 else e) - 150)%Z in
    let signed := if sign then Z.opp significand else significand in
    if Z.leb 0 exponent then Finite (inject_Z (Z.shiftl signed exponent))
    else Finite (Qmake signed (Z.to_pos (Z.shiftl 1 (- exponent)))).

(** [struct.unpack("<f", b)[0]]: the binary32 value, exactly, as a [float]. *)
Definition unpack_f32 (b : bytes) : outcome pyfloat :=
  do w <- unpack_u32 b; Ret (f32_of_bits w).

(* ------------------------------------------------------------------ *)
(** ** utils/nmea.py *)

Definition nmea_to_decimal (nmea_val : pyfloat) : outcome pyfloat :=
  do hundredth <- fdiv nmea_val (float_of_int 100);
  do degrees <- py_int hundredth;
  let minutes := fsub nmea_val (float_of_int (degrees * 100)) in
  do sixtieth <- fdiv minutes (Finite 60);
  Ret (fadd (float_of_int degrees) sixtieth).

Definition decimal_to_nmea (decimal_deg : pyfloat) : outcome pyfloat :=
  do degrees <- py_int (fabs decimal_deg);
  let minutes :=
    fmul (fsub (fabs decimal_deg) (float_of_int degrees)) (float_of_int 60) in
  Ret (fadd (float_of_int (degrees * 100)) minutes).

(** [nmea_to_decimal(decimal_to_nmea(d))]. *)
Definition nmea_roundtrip (d : pyfloat) : outcome pyfloat :=
  do v <- decimal_to_nmea d; nmea_to_decimal v.

(* ------------------------------------------------------------------ *)
(** ** datetime.datetime *)

Record datetime : Type := mk_datetime {
  dt_year : Z; dt_month : Z; dt_day : Z;
  dt_hour : Z; dt_minute : Z; dt_second : Z
}.

Definition is_leap (year : Z) : bool :=
  ((year mod 4 =? 0) && (negb (year mod 100 =? 0) || (year mod 400 =? 0)))%Z.

Definition days_in_month (year month : Z) : Z :=
  if (month =? 2)%Z then (if is_leap year then 29 else 28)%Z
  else if ((month =? 4) || (month =? 6) || (month =? 9) || (month =? 11))%Z
       then 30%Z else 31%Z.

(** The six fields name an instant of the proleptic Gregorian calendar. *)
Definition real_datetime (year month day hour minute second : Z) : bool :=
  ((1 <=? year) && (year <=? 9999) && (1 <=? month) && (month <=? 12)
   && (1 <=? day) && (day <=? days_in_month year month)
   && (0 <=? hour) && (hour <=? 23) && (0 <=? minute) && (minute <=? 59)
   && (0 <=? second) && (second <=? 59))%Z.

Definition INT_MAX : Z := 2147483647.
Definition INT_MIN : Z := (-2147483648)%Z.

Definition fits_c_int (z : Z) : bool := ((INT_MIN <=? z) && (z <=? INT_MAX))%Z.

(** [datetime(year, month, day, hour, minute, second)].  CPython converts
    every argument to a C [int] first and raises [OverflowError] when one does
    not fit; the range checks that raise [ValueError] come after. *)
Definition datetime_new (year month day hour minute second : Z) : outcome datetime :=
  if negb (forallb fits_c_int [year; month; day; hour; minute; second])
  then Raise OverflowError
  else if real_datetime year month day hour minute second
       then Ret (mk_datetime year month day hour minute second)
       else Raise ValueError.

(* ------------------------------------------------------------------ *)
(** ** models.py *)

Record GPSPoint : Type := mk_GPSPoint {
  latitude : pyfloat;
  longitude : pyfloat;
  timestamp : option datetime;
  speed : pyfloat;
  heading : pyfloat;
  altitude : option pyfloat;
  fix_quality : Z;
  satellites : Z;
  gsensor_x : option pyfloat;
  gsensor_y : option pyfloat;
  gsensor_z : option pyfloat
}.

(** The dataclass constructor: every field after the first two is optional
    and takes the default of its declaration when [None] is passed here. *)
Definition GPSPoint_init (latitude longitude : pyfloat)
    (timestamp : option (option datetime)) (speed heading : option pyfloat)
    (altitude : option (option pyfloat)) (fix_quality satellites : option Z)
    (gsensor_x gsensor_y gsensor_z : option (option pyfloat)) : GPSPoint :=
  mk_GPSPoint latitude longitude
    (default None timestamp)
    (default (Finite 0) speed)
    (default (Finite 0) heading)
    (default None altitude)
    (default 1%Z fix_quality)
    (default 0%Z satellites)
    (default None gsensor_x)
    (default None gsensor_y)
    (default None gsensor_z).

(** [GPSPoint(latitude, longitude)]. *)
Definition GPSPoint_of_coordinates (latitude longitude : pyfloat) : GPSPoint :=
  GPSPoint_init latitude longitude None None None None None None None None None.

Definition is_valid (self : GPSPoint) : bool :=
  (fle (float_of_int (-90)) (latitude self) && fle (latitude self) (float_of_int 90))
  && (fle (float_of_int (-180)) (longitude self) && fle (longitude self) (float_of_int 180))
  && (0 <? fix_quality self)%Z.

Record GPSTrack : Type := mk_GPSTrack {
  points : list GPSPoint;
  source_file : string;
  device_info : option (gmap string string)
}.

(** Track objects live in a heap, addressed by identity. *)
Definition loc : Type := positive.

Definition filter_valid (h : gmap loc GPSTrack) (self : loc)
  : option (gmap loc GPSTrack * loc) :=
  match h !! self with
  | None => None
  | Some t =>
      let new := fresh (dom h) in
      Some (<[new := mk_GPSTrack (List.filter is_valid (points t))
                                 (source_file t) (device_info t)]> h, new)
  end.

(* ------------------------------------------------------------------ *)
(** ** parsers/youqing.py *)

Definition MARKER_FREE_GPS : bytes := list_byte_of_string "freeGPS ".
Definition MARKER_YOUQING : bytes := list_byte_of_string "YOUQINGGPS".

(** [YouqingParser._parse_chunk]: [Ret None] is the source's [return None],
    [Raise] an exception that leaves the method. *)
Definition _parse_chunk (chunk : bytes) : outcome (option GPSPoint) :=
  if length chunk <? 72 then Ret None
  else
    (* coordinates (NMEA format floats) *)
    do lat_nmea <- unpack_f32 (slice chunk 36 40);
    do lon_nmea <- unpack_f32 (slice chunk 40 44);
    if feq lat_nmea (float_of_int 0) || feq lon_nmea (float_of_int 0)
    then Ret None
    else
      (* timestamp components *)
      do year <- unpack_u32 (slice chunk 44 48);
      do hour <- unpack_u32 (slice chunk 48 52);
      do minute <- unpack_u32 (slice chunk 52 56);
      do day <- unpack_u32 (slice chunk 56 60);
      do month <- unpack_u32 (slice chunk 60 64);
      do second <- unpack_u32 (slice chunk 64 68);
      (* status; decoding with errors="replace" cannot raise, so the
         fallback "ANE" of the source is never taken *)
      let status := decode_ascii_replace (slice chunk 68 71) in
      do lat <- nmea_to_decimal lat_nmea;
      do lon <- nmea_to_decimal lon_nmea;
      let ns := if 1 <? length status then nth 1 status 0%N else ord "N" in
      let ew := if 2 <? length status then nth 2 status 0%N else ord "E" in
      let lat := if N.eqb ns (ord "S") then fneg lat else lat in
      let lon := if N.eqb ew (ord "W") then fneg lon else lon in
      (* speed, if available *)
      let speed :=
        if 112 <=? length chunk then
          except_Exception
            (do raw_speed <- unpack_f32 (slice chunk 108 112);
             Ret (if fle (float_of_int 0) raw_speed && flt raw_speed (float_of_int 500)
                  then raw_speed else Finite 0))
            (Finite 0)
        else Finite 0 in
      (* timestamp *)
      do timestamp <-
        except_ValueError
          (let year_full := (if year <? 100 then 2000 + year else year)%Z in
           let hour_clamped := (hour mod 24)%Z in
           do t <- datetime_new year_full month day hour_clamped minute second;
           Ret (Some t))
          None;
      let fix_quality :=
        match status with
        | c :: _ => if N.eqb c (ord "A") then 1%Z else 0%Z
        | [] => 0%Z
        end in
      Ret (Some (GPSPoint_init lat lon (Some timestamp) (Some speed)
                   (Some (Finite 0)) None (Some fix_quality) None None None None)).

(** The outcome of [open(filepath, "rb")] followed by a read. *)
Inductive file : Type :=
| Readable (content : bytes)
| Unreadable             (* OSError *)
| BadPath.               (* ValueError: the path is refused before any I/O *)

(** [open] looks at the path first: one that holds a null byte is refused
    with [ValueError("embedded null byte")]; otherwise the file system
    decides. *)
Definition has_null_byte (path : string) : bool :=
  existsb (Ascii.eqb "000"%char) (list_ascii_of_string path).

Definition open_rb (system : string -> file) (path : string) : file :=
  if has_null_byte path then BadPath else system path.

Definition PREFIX_SIZE : N := 10 * 1024 * 1024.

(** [YouqingParser.can_parse]: the handler is for [OSError] alone. *)
Definition can_parse (f : file) : outcome bool :=
  match f with
  | BadPath => Raise ValueError
  | Unreadable => Ret false
  | Readable content =>
      let chunk := read_at_most PREFIX_SIZE content in
      match find chunk MARKER_FREE_GPS 0 with
      | None => Ret false
      | Some pos =>
          Ret (bytes_eqb (slice chunk (pos + 12) (pos + 22)) MARKER_YOUQING)
      end
  end.

(** The variables of the loop of [parse]; [yielded] is a ghost log of the
    offsets whose window was handed to [_parse_chunk]. *)
Record scan_state : Type := mk_scan_state {
  offset : nat;
  found : list GPSPoint;
  yielded : list nat
}.

(** One turn of the [while True] loop; [None] is [break]. *)
Definition loop_body (content : bytes) (st : scan_state) : option scan_state :=
  match find content MARKER_FREE_GPS (offset st) with
  | None => None
  | Some pos =>
      let chunk := slice content pos (pos + 256) in
      if negb (bytes_eqb (slice chunk 12 22) MARKER_YOUQING) then
        Some (mk_scan_state (pos + 8) (found st) (yielded st))
      else
        let found' :=
          except_Exception
            (do point <- _parse_chunk chunk;
             Ret (match point with
                  | Some p => found st ++ [p]
                  | None => found st
                  end))
            (found st) in
        Some (mk_scan_state (pos + 8) found' (yielded st ++ [pos]))
  end.

Fixpoint parse_loop (fuel : nat) (content : bytes) (st : scan_state)
  : option scan_state :=
  match fuel with
  | O => None
  | S fuel' =>
      match loop_body content st with
      | None => Some st
      | Some st' => parse_loop fuel' content st'
      end
  end.

(** The scan of a buffer from offset 0. *)
Definition scan (content : bytes) : option scan_state :=
  parse_loop (S (length content)) content (mk_scan_state 0 [] []).

(** [YouqingParser.parse]: the outer [None] is fuel running out.  The
    handler turns an [OSError] into [ParseError] and lets any other
    exception of [open] through. *)
Definition parse (filepath : string) (f : file) : option (outcome GPSTrack) :=
  match f with
  | BadPath => Some (Raise ValueError)
  | Unreadable => Some (Raise ParseError)
  | Readable content =>
      match scan content with
      | None => None
      | Some st =>
          Some (Ret (mk_GPSTrack (found st) filepath
                       (Some {[ "format"%string := "YOUQINGGPS"%string ]})))
      end
  end.

(* ------------------------------------------------------------------ *)
(** ** Vocabulary of the statements *)

(** [sub] occurs in [content] at index [i]. *)
Definition occurs_at (sub content : bytes) (i : nat) : bool :=
  starts_with sub (skipn i content).

(** [pos] is the lowest index at which [sub] occurs in [content]. *)
Definition first_occurrence (sub content : bytes) (pos : nat) : Prop :=
  occurs_at sub content pos = true
  /\ forall i, i < pos -> occurs_at sub content i = false.

(** The ten bytes at [pos + 12] are the brand identifier. *)
Definition brand_at (content : bytes) (pos : nat) : bool :=
  bytes_eqb (slice content (pos + 12) (pos + 22)) MARKER_YOUQING.

(** A marker at [pos] that carries the brand. *)
Definition valid_record (content : bytes) (pos : nat) : bool :=
  occurs_at MARKER_FREE_GPS content pos && brand_at content pos.

(** The fields of a candidate, as the decoder reads them. *)
Definition raw_f32 (chunk : bytes) (i : nat) : outcome pyfloat :=
  unpack_f32 (slice chunk i (i + 4)).
Definition raw_u32 (chunk : bytes) (i : nat) : outcome Z :=
  unpack_u32 (slice chunk i (i + 4)).
Definition byte_at (chunk : bytes) (i : nat) : byte := nth i chunk x00.

(** The binary32 field at [i] compares equal to 0. *)
Definition zero_field (chunk : bytes) (i : nat) : bool :=
  match raw_f32 chunk i with
  | Ret x => feq x (float_of_int 0)
  | Raise _ => false
  end.

(** The binary32 field at [i] is neither an infinity nor NaN. *)
Definition finite_field (chunk : bytes) (i : nat) : bool :=
  match raw_f32 chunk i with
  | Ret (Finite _) => true
  | _ => false
  end.

(** The unsigned field at [i] is at most [INT_MAX]. *)
Definition c_int_field (chunk : bytes) (i : nat) : bool :=
  match raw_u32 chunk i with
  | Ret z => fits_c_int z
  | Raise _ => false
  end.

(** The decoder hands back a sample. *)
Definition yields_sample (chunk : bytes) : bool :=
  match _parse_chunk chunk with
  | Ret (Some _) => true
  | _ => false
  end.

(** The value [nmea_to_decimal] computes on a finite argument. *)
Definition nmea_value (q : Q) : Q :=
  inject_Z (Qtrunc (q / inject_Z 100))
  + (q + - inject_Z (Qtrunc (q / inject_Z 100) * 100)) / 60.

Definition year_full_of (year : Z) : Z := (if year <? 100 then 2000 + year else year)%Z.

(** The timestamp the decoder attaches to the six date words. *)
Definition timestamp_of (year hour minute day month second : Z) : option datetime :=
  if real_datetime (year_full_of year) month day (hour mod 24) minute second
  then Some (mk_datetime (year_full_of year) month day (hour mod 24) minute second)
  else None.

(** [-x] when the byte at [i] is the letter [c], [x] otherwise. *)
Definition negated_on (chunk : bytes) (i : nat) (c : byte) (x : pyfloat) : pyfloat :=
  if Byte.eqb (byte_at chunk i) c then fneg x else x.

Definition in_speed_range (x : pyfloat) : bool :=
  fle (float_of_int 0) x && flt x (float_of_int 500).

(** The speed the decoder stores. *)
Definition decoded_speed (chunk : bytes) : pyfloat :=
  if 112 <=? length chunk then
    match raw_f32 chunk 108 with
    | Ret raw => if in_speed_range raw then raw else Finite 0
    | Raise _ => Finite 0
    end
  else Finite 0.

(** The rejection rule with 71 as the least length: no sample exactly when
    the candidate is shorter than 71 bytes or one NMEA word is zero. *)
Definition rejection_rule_71 (chunk : bytes) : Prop :=
  yields_sample chunk = false
  <-> (length chunk < 71 \/ zero_field chunk 36 = true \/ zero_field chunk 40 = true).

(** The candidate gets past the two [return None] tests of the decoder. *)
Definition passes_checks (chunk : bytes) : Prop :=
  72 <= length chunk /\ zero_field chunk 36 = false /\ zero_field chunk 40 = false.

(** The decoder hands back a sample whose timestamp is the one of the date
    words of the candidate, absent when they name no real date. *)
Definition timestamp_rule (chunk : bytes) : Prop :=
  exists p year hour minute day month second,
    raw_u32 chunk 44 = Ret year /\ raw_u32 chunk 48 = Ret hour
    /\ raw_u32 chunk 52 = Ret minute /\ raw_u32 chunk 56 = Ret day
    /\ raw_u32 chunk 60 = Ret month /\ raw_u32 chunk 64 = Ret second
    /\ _parse_chunk chunk = Ret (Some p)
    /\ timestamp p = timestamp_of year hour minute day month second.

(** Encoding and then decoding [d] gives back [d]. *)
Definition roundtrip_recovers (d : Q) : Prop :=
  exists r, nmea_roundtrip (Finite d) = Ret (Finite r) /\ r == d.

(** The validity predicate in the words of the data model: latitude in
    [-90, 90], longitude in [-180, 180], fix quality above 0. *)
Definition valid_sample (p : GPSPoint) : Prop :=
  exists lat lon,
    latitude p = Finite lat /\ longitude p = Finite lon
    /\ (-90 <= lat)%Q /\ (lat <= 90)%Q /\ (-180 <= lon)%Q /\ (lon <= 180)%Q
    /\ (0 < fix_quality p)%Z.

(* ------------------------------------------------------------------ *)
(** ** Sample data *)

Definition pack_u32 (z : Z) : bytes :=
  map (fun k => default x00 (Byte.of_N (Z.to_N (Z.land (Z.shiftr z (8 * k)) 255))))
      [0; 1; 2; 3]%Z.

(** A 256-byte record: marker, payload size, brand, then the fields, with
    the two NMEA words, the status text and the speed word left open. *)
Definition record_with (lat_bits lon_bits year hour minute day month second : Z)
    (status : string) (speed_bits : Z) : bytes :=
  MARKER_FREE_GPS ++ pack_u32 248 ++ MARKER_YOUQING ++ repeat x00 14
  ++ pack_u32 lat_bits ++ pack_u32 lon_bits
  ++ pack_u32 year ++ pack_u32 hour ++ pack_u32 minute
  ++ pack_u32 day ++ pack_u32 month ++ pack_u32 second
  ++ list_byte_of_string status ++ repeat x00 37
  ++ pack_u32 speed_bits ++ repeat x00 144.

(** binary32 words: 3840.7339, 7716.2932, 45.5, 600.0, a quiet NaN. *)
Definition BITS_LAT : Z := 1164970942.
Definition BITS_LON : Z := 1173430872.
Definition BITS_45_5 : Z := 1110835200.
Definition BITS_600 : Z := 1142292480.
Definition BITS_NAN : Z := 2143289344.

Definition good_record : bytes :=
  record_with BITS_LAT BITS_LON 24 25 30 15 6 45 "ASE" BITS_45_5.

Definition nan_record : bytes :=
  record_with BITS_NAN BITS_LON 24 25 30 15 6 45 "ASE" BITS_45_5.

(** Month word [2^31]: too large for a C [int]. *)
Definition big_month_record : bytes :=
  record_with BITS_LAT BITS_LON 24 25 30 15 2147483648 45 "ASE" BITS_45_5.

Definition month13_record : bytes :=
  record_with BITS_LAT BITS_LON 2024 7 30 15 13 45 "ANW" BITS_600.

(** [chunk] with its three status bytes replaced. *)
Definition with_status (chunk : bytes) (s68 s69 s70 : byte) : bytes :=
  firstn 68 chunk ++ [s68; s69; s70] ++ skipn 71 chunk.

(** Status bytes [A], [0xFF], [W]: the middle one is not ASCII. *)
Definition odd_status_record : bytes := with_status good_record "A" xff "W".

(** A marker with a foreign brand, then a genuine record. *)
Definition decoy_then_record : bytes :=
  MARKER_FREE_GPS ++ pack_u32 248 ++ list_byte_of_string "NOVATEKGPS"
  ++ repeat x00 10 ++ good_record.

Definition sample_of (chunk : bytes) : GPSPoint :=
  match _parse_chunk chunk with
  | Ret (Some p) => p
  | _ => GPSPoint_of_coordinates NaN NaN
  end.

Definition good_point : GPSPoint := Eval vm_compute in sample_of good_record.
Definition month13_point : GPSPoint := Eval vm_compute in sample_of month13_record.
Definition odd_status_point : GPSPoint := Eval vm_compute in sample_of odd_status_record.

(** A sample without a fix, and one off the globe. *)
Definition no_fix_point : GPSPoint :=
  GPSPoint_init (Finite 10) (Finite 20) None None None None (Some 0%Z) None None None None.
Definition off_globe_point : GPSPoint := GPSPoint_of_coordinates (Finite 95) (Finite 20).

Definition sample_track : GPSTrack :=
  mk_GPSTrack [good_point; no_fix_point; month13_point; off_globe_point]
    "trip.mp4" (Some {[ "format"%string := "YOUQINGGPS"%string ]}).

Definition sample_heap : gmap loc GPSTrack := {[ 1%positive := sample_track ]}.

(** A foreign marker at 0, then records at 32 and 288. *)
Definition two_records : bytes := decoy_then_record ++ good_record.

(** A record whose latitude is NaN at 0, then a good record at 256. *)
Definition nan_then_record : bytes := nan_record ++ good_record.

(** A path that holds a null byte: [a\0b.mp4]. *)
Definition null_byte_path : string := String "a" (String "000" "b.mp4").

(* ------------------------------------------------------------------ *)
(** ** parsers/youqing.py: what a scan collects *)

(** The sample, if any, that the loop of [parse] appends for a branded
    marker at [pos]. *)
Definition samples_at (content : bytes) (pos : nat) : list GPSPoint :=
  match _parse_chunk (slice content pos (pos + 256)) with
  | Ret (Some p) => [p]
  | _ => []
  end.

(** The offsets of the branded markers of a buffer, ascending. *)
Definition branded_markers (content : bytes) : list nat :=
  List.filter (valid_record content) (seq 0 (length content)).

(** What every sample of the decoder looks like. *)
Definition decoded_shape (p : GPSPoint) : Prop :=
  (exists lat lon v,
      latitude p = Finite lat /\ longitude p = Finite lon
      /\ speed p = Finite v /\ (0 <= v)%Q /\ (v < 500)%Q)
  /\ heading p = Finite 0 /\ altitude p = None /\ satellites p = 0%Z
  /\ gsensor_x p = None /\ gsensor_y p = None /\ gsensor_z p = None
  /\ (fix_quality p = 0 \/ fix_quality p = 1)%Z
  /\ (forall t, timestamp p = Some t ->
        real_datetime (dt_year t) (dt_month t) (dt_day t)
                      (dt_hour t) (dt_minute t) (dt_second t) = true
        /\ (100 <= dt_year t)%Z).

(* ------------------------------------------------------------------ *)
(** ** parsers/base.py and parsers/__init__.py *)

(** The interface [BaseParser]: what a registered parser offers.  Both
    methods are given what opening and reading the path yields; either may
    raise. *)
Record BaseParser : Type := mk_BaseParser {
  name : string;
  formats : list string;
  bp_can_parse : file -> outcome bool;
  bp_parse : string -> file -> option (outcome GPSTrack)
}.



(** What a call of the package interface comes to. *)
Inductive api_outcome (A : Type) : Type :=
| Returned (a : A)
| Raised (e : exn)
| Unsupported.          (* UnsupportedFormatError *)
Arguments Returned {A} a.
Arguments Raised {A} e.
Arguments Unsupported {A}.

Section Registry.

(** The file system, which is the same at every access of one call, and
    [str(Path(filepath))]. *)
Variable disk : string -> file.
Variable Path_str : string -> string.

(** The loop of [get_parser] over the registry: an exception of a
    [can_parse] ends it. *)
Fixpoint first_accepting (registry : list BaseParser) (path : string)
  : outcome (option BaseParser) :=
  match registry with
  | [] => Ret None
  | parser :: rest =>
      do accepts <- bp_can_parse parser (open_rb disk path);
      if accepts then Ret (Some parser)
      else first_accepting rest path
  end.

(** [get_parser(filepath)], with the registry it reads. *)
Definition get_parser (registry : list BaseParser) (filepath : string)
  : api_outcome BaseParser :=
  match first_accepting registry (Path_str filepath) with
  | Ret (Some parser) => Returned parser
  | Ret None => Unsupported
  | Raise e => Raised e
  end.


End Registry.

(* ------------------------------------------------------------------ *)
(** ** models.py: the accessors of [GPSTrack] *)

(** [min(xs)] and [max(xs)] of the built-ins: the first item is kept until
    a later one compares strictly smaller (greater); an empty argument
    raises. *)
Definition py_min (xs : list pyfloat) : outcome pyfloat :=
  match xs with
  | [] => Raise ValueError
  | x :: rest =>
      Ret (fold_left (fun best item => if flt item best then item else best) rest x)
  end.

Definition py_max (xs : list pyfloat) : outcome pyfloat :=
  match xs with
  | [] => Raise ValueError
  | x :: rest =>
      Ret (fold_left (fun best item => if flt best item then item else best) rest x)
  end.

(** The property [GPSTrack.bounds]:
    [(min_lat, min_lon, max_lat, max_lon)]. *)
Definition bounds (self : GPSTrack)
  : outcome (option (pyfloat * pyfloat * pyfloat * pyfloat)) :=
  match points self with
  | [] => Ret None
  | _ :: _ =>
      let lats := map latitude (points self) in
      let lons := map longitude (points self) in
      do min_lat <- py_min lats;
      do min_lon <- py_min lons;
      do max_lat <- py_max lats;
      do max_lon <- py_max lons;
      Ret (Some (min_lat, min_lon, max_lat, max_lon))
  end.

(** Proleptic Gregorian ordinal of a date, as [datetime] computes it. *)
Definition days_before_year (year : Z) : Z :=
  let y := (year - 1)%Z in (y * 365 + y / 4 - y / 100 + y / 400)%Z.

Definition DAYS_BEFORE_MONTH : list Z :=
  [0; 0; 31; 59; 90; 120; 151; 181; 212; 243; 273; 304; 334]%Z.

Definition days_before_month (year month : Z) : Z :=
  (nth (Z.to_nat month) DAYS_BEFORE_MONTH 0
   + (if (2 <? month) && is_leap year then 1 else 0))%Z.

Definition toordinal (d : datetime) : Z :=
  (days_before_year (dt_year d) + days_before_month (dt_year d) (dt_month d)
   + dt_day d)%Z.

(** [(a - b).total_seconds()] for two naive datetimes without microseconds:
    the difference of the ordinals in days plus the difference of the
    seconds of the day. *)
Definition total_seconds_between (a b : datetime) : Z :=
  ((toordinal a - toordinal b) * 86400
   + ((dt_hour a - dt_hour b) * 3600 + (dt_minute a - dt_minute b) * 60
      + (dt_second a - dt_second b)))%Z.

(** The property [GPSTrack.duration]. *)
Definition duration (self : GPSTrack) : option pyfloat :=
  match points self with
  | [] | [_] => None                              (* len(self.points) < 2 *)
  | first_point :: rest =>
      match timestamp first_point, timestamp (List.last rest first_point) with
      | Some first, Some last => Some (float_of_int (total_seconds_between last first))
      | _, _ => None
      end
  end.

(** [a < b] on datetimes: the fields compared in order. *)
Definition dt_fields (d : datetime) : list Z :=
  [dt_year d; dt_month d; dt_day d; dt_hour d; dt_minute d; dt_second d].

Fixpoint lex_lt (a b : list Z) : bool :=
  match a, b with
  | x :: a', y :: b' => (x <? y)%Z || ((x =? y)%Z && lex_lt a' b')
  | _, _ => false
  end.

Definition dt_lt (a b : datetime) : bool := lex_lt (dt_fields a) (dt_fields b).

Definition real (d : datetime) : Prop :=
  real_datetime (dt_year d) (dt_month d) (dt_day d)
                (dt_hour d) (dt_minute d) (dt_second d) = true.

Definition is_nan (x : pyfloat) : bool :=
  match x with NaN => true | _ => false end.

(** [x >= y]. *)
Definition fge (x y : pyfloat) : bool := fle y x.

(** Seconds from the start of the calendar to [d]. *)
Definition instant (d : datetime) : Z :=
  (toordinal d * 86400 + dt_hour d * 3600 + dt_minute d * 60 + dt_second d)%Z.

(* ------------------------------------------------------------------ *)
(** ** exporters: what is handed to the libraries

    An exporter builds objects of a library (gpxpy, simplekml, geojson, csv)
    and has the library write them.  The models below stop where the
    library takes over: they give the values the exporter passes in, in the
    order it passes them.  [Path(...).stem], [datetime.isoformat] and the
    decimal form of an integer are left as parameters.  The float literal
    3.6 is the rational 18/5. *)

(** Truth value of a [str] and of an optional [dict]. *)
Definition str_truthy (s : string) : bool := negb (String.eqb s "").
Definition dict_truthy (d : option (gmap string string)) : bool :=
  match d with
  | Some m => negb (bool_decide (m = ∅))
  | None => false
  end.

(** [x or 0] for an optional float: [None] and zero give 0. *)
Definition or_zero (x : option pyfloat) : pyfloat :=
  match x with
  | None => Finite 0
  | Some a => if feq a (float_of_int 0) then Finite 0 else a
  end.

Record GPXTrackPoint : Type := mk_GPXTrackPoint {
  gpx_latitude : pyfloat;
  gpx_longitude : pyfloat;
  gpx_elevation : option pyfloat;
  gpx_time : option datetime;
  gpx_speed : option pyfloat;       (* [None]: the attribute is not assigned *)
  gpx_course : option pyfloat
}.

Record GPX : Type := mk_GPX {
  gpx_name : string;
  gpx_description : string;
  gpx_creator : option string;      (* [None]: the attribute is not assigned *)
  gpx_tracks : list (list (list GPXTrackPoint))   (* tracks, segments, points *)
}.

Inductive AltitudeMode : Type := absolute | clamptoground.

Record KmlLineString : Type := mk_KmlLineString {
  ls_name : string;
  ls_coords : list (pyfloat * pyfloat * pyfloat);
  ls_description : string;
  ls_altitudemode : AltitudeMode
}.

Record KmlPoint : Type := mk_KmlPoint {
  pt_name : string;
  pt_coords : list (pyfloat * pyfloat);
  pt_icon : string;
  pt_description : option string    (* [None]: the attribute is not assigned *)
}.

Record Kml : Type := mk_Kml {
  kml_document_name : string;
  kml_folder_name : string;
  kml_linestrings : list KmlLineString;
  kml_points : list KmlPoint
}.

(** A value of a GeoJSON property or of a CSV cell. *)
#[warnings="-register-all"]
Inductive value : Type :=
| VInt (z : Z)
| VFloat (x : pyfloat)
| VStr (s : string)
| VNone
| VDict (d : list (string * value))
| VDevice (d : gmap string string).

Inductive Geometry : Type :=
| LineString (coordinates : list (list pyfloat))
| Point (coordinates : pyfloat * pyfloat).

Record Feature : Type := mk_Feature {
  geometry : Geometry;
  properties : list (string * value)   (* in insertion order *)
}.

Definition CSV_COLUMNS : list string :=
  ["timestamp"; "latitude"; "longitude"; "altitude"; "speed_kmh"; "heading";
   "fix_quality"; "satellites"; "gsensor_x"; "gsensor_y"; "gsensor_z"]%string.

(** cli.py: the formats the command line offers, the document an
    exporter builds, and what a call of [export_track] comes to. *)
Definition EXPORT_FORMATS : list string := ["gpx"; "geojson"; "kml"; "csv"]%string.

Inductive document : Type :=
| GpxDocument (gpx : GPX)
| GeoJSONDocument (features : list Feature)
| KmlDocument (kml : Kml)
| CsvDocument (lines : list (list value)).

Inductive export_outcome : Type :=
| MkdirRaised                        (* the exception of [mkdir] leaves *)
| UnknownFormat                      (* [ValueError("Unknown format: ...")] *)
| Called (built : outcome document). (* an exporter is called: what it builds *)

Section Exporters.

Variable Path_stem : string -> string.        (* [Path(s).stem] *)
Variable isoformat : datetime -> string.      (* [d.isoformat()] *)
Variable str_of_nat : nat -> string.          (* [str(n)] *)

(** [export_gpx]: the document whose [to_xml()] is written. *)
Definition export_gpx_point (point : GPSPoint) : outcome GPXTrackPoint :=
  do speed <-
    (if flt (float_of_int 0) (speed point)
     then do s <- fdiv (speed point) (Finite (18 # 5)); Ret (Some s)
     else Ret None);
  let course :=
    if flt (float_of_int 0) (heading point) then Some (heading point) else None in
  Ret (mk_GPXTrackPoint (latitude point) (longitude point) (altitude point)
                        (timestamp point) speed course).

Fixpoint export_gpx_points (pts : list GPSPoint) : outcome (list GPXTrackPoint) :=
  match pts with
  | [] => Ret []
  | point :: rest =>
      do gpx_point <- export_gpx_point point;
      do others <- export_gpx_points rest;
      Ret (gpx_point :: others)
  end.

Definition export_gpx (track : GPSTrack) : outcome GPX :=
  let name :=
    if str_truthy (source_file track) then Path_stem (source_file track)
    else "Dashcam Track"%string in
  let creator :=
    if dict_truthy (device_info track)
    then Some (default "dashcam-telemetry"%string
                       (default ∅ (device_info track) !! "format"%string))
    else None in
  do segment <- export_gpx_points (points track);
  Ret (mk_GPX name "GPS track extracted from dashcam video" creator [[segment]]).

(** [export_kml]: the document that is saved. *)
Definition kml_marker (name icon : string) (point : GPSPoint) (label : string)
  : KmlPoint :=
  mk_KmlPoint name [(longitude point, latitude point)] icon
    (match timestamp point with
     | Some t => Some (String.append label (isoformat t))
     | None => None
     end).

Definition export_kml (track : GPSTrack) : Kml :=
  let name :=
    if str_truthy (source_file track) then Path_stem (source_file track)
    else "Dashcam Track"%string in
  let linestrings :=
    match points track with
    | [] => []
    | _ :: _ =>
        [mk_KmlLineString "Route"
           (map (fun point => (longitude point, latitude point,
                               or_zero (altitude point))) (points track))
           (String.append "GPS track with "
              (String.append (str_of_nat (length (points track))) " points"))
           (if existsb (fun p => match altitude p with Some _ => true | None => false end)
                       (points track)
            then absolute else clamptoground)]
    end in
  let markers :=
    match points track with
    | [] => []
    | start :: rest =>
        let stop := List.last rest start in
        [kml_marker "Start" "http://maps.google.com/mapfiles/kml/paddle/grn-circle.png"
                    start "Start: ";
         kml_marker "End" "http://maps.google.com/mapfiles/kml/paddle/red-circle.png"
                    stop "End: "]
    end in
  mk_Kml name name linestrings markers.

(** [export_geojson]: the features of the collection that is dumped. *)
Definition geojson_point_feature (i : nat) (point : GPSPoint) : Feature :=
  mk_Feature (Point (longitude point, latitude point))
    ([("type", VStr "point"); ("index", VInt (Z.of_nat i));
      ("speed_kmh", VFloat (speed point)); ("heading", VFloat (heading point));
      ("fix_quality", VInt (fix_quality point))]%string
     ++ (match timestamp point with
         | Some t => [("timestamp"%string, VStr (isoformat t))]
         | None => []
         end)
     ++ (match altitude point with
         | Some a => [("altitude_m"%string, VFloat a)]
         | None => []
         end)
     ++ (match gsensor_x point with
         | Some x =>
             let opt v := match v with Some y => VFloat y | None => VNone end in
             [("gsensor", VDict [("x", VFloat x); ("y", opt (gsensor_y point));
                                 ("z", opt (gsensor_z point))])]%string
         | None => []
         end)).

Fixpoint geojson_point_features (i : nat) (pts : list GPSPoint) : list Feature :=
  match pts with
  | [] => []
  | point :: rest =>
      geojson_point_feature i point :: geojson_point_features (S i) rest
  end.

Definition export_geojson (track : GPSTrack) : outcome (list Feature) :=
  do route <-
    (match points track with
     | [] => Ret []
     | _ :: _ =>
         let coordinates :=
           map (fun point => [longitude point; latitude point]) (points track) in
         do b <- bounds track;
         Ret [mk_Feature (LineString coordinates)
                ([("type", VStr "route");
                  ("name", VStr (if str_truthy (source_file track)
                                 then Path_stem (source_file track) else "track"));
                  ("point_count", VInt (Z.of_nat (length (points track))))]%string
                 ++ (match duration track with
                     | Some d => [("duration_seconds"%string, VFloat d)]
                     | None => []
                     end)
                 ++ (match b with
                     | Some (min_lat, min_lon, max_lat, max_lon) =>
                         [("bounds", VDict [("min_lat", VFloat min_lat);
                                            ("min_lon", VFloat min_lon);
                                            ("max_lat", VFloat max_lat);
                                            ("max_lon", VFloat max_lon)])]%string
                     | None => []
                     end)
                 ++ (if dict_truthy (device_info track)
                     then [("device"%string, VDevice (default ∅ (device_info track)))]
                     else []))]
     end);
  Ret (route ++ geojson_point_features 0 (points track)).

(** [export_csv]: the rows given to the writer after the header, each
    with its cells in the order the row dictionary is built. *)
Definition export_csv_row (point : GPSPoint) : list (string * value) :=
  let cell v := match v with Some x => VFloat x | None => VStr ""%string end in
  [("timestamp", VStr (match timestamp point with
                       | Some t => isoformat t
                       | None => ""%string
                       end));
   ("latitude", VFloat (latitude point));
   ("longitude", VFloat (longitude point));
   ("altitude", cell (altitude point));
   ("speed_kmh", VFloat (speed point));
   ("heading", VFloat (heading point));
   ("fix_quality", VInt (fix_quality point));
   ("satellites", VInt (satellites point));
   ("gsensor_x", cell (gsensor_x point));
   ("gsensor_y", cell (gsensor_y point));
   ("gsensor_z", cell (gsensor_z point))]%string.

(** [DictWriter.writerow] with the defaults [extrasaction="raise"] and
    [restval=""]: the cells in the order of the field names; a key of the
    row that is no field name raises. *)
Definition writerow (fieldnames : list string) (row : list (string * value))
  : outcome (list value) :=
  if forallb (fun kv => existsb (String.eqb (fst kv)) fieldnames) row
  then Ret (map (fun col =>
                   match List.find (fun kv => String.eqb (fst kv) col) row with
                   | Some kv => snd kv
                   | None => VStr ""
                   end) fieldnames)
  else Raise ValueError.

Fixpoint writerows (fieldnames : list string) (rows : list (list (string * value)))
  : outcome (list (list value)) :=
  match rows with
  | [] => Ret []
  | row :: rest =>
      do line <- writerow fieldnames row;
      do lines <- writerows fieldnames rest;
      Ret (line :: lines)
  end.

(** [export_csv]: the lines written, the header first. *)
Definition export_csv (track : GPSTrack) : outcome (list (list value)) :=
  do lines <- writerows CSV_COLUMNS (map export_csv_row (points track));
  Ret (map VStr CSV_COLUMNS :: lines).

(** [export_track] with the methods [to_gpx], [to_geojson], [to_kml] and
    [to_csv] of [GPSTrack], which call the exporters.  [mkdir_parent] says
    whether [output_path.parent.mkdir(parents=True, exist_ok=True)] returns;
    it comes first.  What an exporter does with the file once it is called
    stays outside, as above. *)
Variable mkdir_parent : string -> bool.

Definition export_track (track : GPSTrack) (output_path : string) (format : string)
  : export_outcome :=
  if negb (mkdir_parent output_path) then MkdirRaised
  else if String.eqb format "gpx" then
    Called (do gpx <- export_gpx track; Ret (GpxDocument gpx))
  else if String.eqb format "geojson" then
    Called (do features <- export_geojson track; Ret (GeoJSONDocument features))
  else if String.eqb format "kml" then
    Called (Ret (KmlDocument (export_kml track)))
  else if String.eqb format "csv" then
    Called (do lines <- export_csv track; Ret (CsvDocument lines))
  else UnknownFormat.

End Exporters.

(** How [export_gpx] renders a point of the decoder. *)
Definition gpx_of_decoded (p : GPSPoint) (g : GPXTrackPoint) : Prop :=
  gpx_latitude g = latitude p /\ gpx_longitude g = longitude p
  /\ gpx_time g = timestamp p /\ gpx_elevation g = None /\ gpx_course g = None
  /\ exists v, speed p = Finite v
       /\ ((v == 0)%Q -> gpx_speed g = None)
       /\ (~ (v == 0)%Q -> gpx_speed g = Some (Finite (v / (18 # 5)))).

(* ------------------------------------------------------------------ *)
(** ** Facts about byte strings *)

Lemma bytes_eqb_eq (a b : bytes) : bytes_eqb a b = true <-> a = b.
Proof.
  revert b; induction a as [|x a IH]; intros [|y b]; simpl;
    try (split; [discriminate | congruence]); try tauto.
  rewrite andb_true_iff, IH. split.
  - intros [Hxy ->]. apply Byte.byte_dec_bl in Hxy. now subst.
  - intros [= -> ->]. split; [now apply Byte.byte_dec_lb | reflexivity].
Qed.

Lemma starts_with_app (sub l : bytes) :
  starts_with sub l = true <-> exists rest, l = sub ++ rest.
Proof.
  revert l; induction sub as [|x sub IH]; intros l; simpl.
  - split; [now exists l | reflexivity].
  - destruct l as [|y l].
    + split; [discriminate | intros [rest [=]]].
    + rewrite andb_true_iff, IH. split.
      * intros [Hxy [rest ->]]. apply Byte.byte_dec_bl in Hxy. subst.
        now exists rest.
      * intros [rest [= -> ->]]. split; [now apply Byte.byte_dec_lb | now exists rest].
Qed.

Lemma starts_with_length (sub l : bytes) :
  starts_with sub l = true -> length sub <= length l.
Proof.
  intros [rest ->]%starts_with_app. rewrite length_app. lia.
Qed.


(** A slice of a window is a slice of the buffer. *)
Lemma slice_window (b : bytes) (pos n i j : nat) :
  j <= n -> slice (slice b pos (pos + n)) i j = slice b (pos + i) (pos + j).
Proof.
  intros Hj. unfold slice.
  replace (pos + n - pos) with n by lia.
  replace (pos + j - (pos + i)) with (j - i) by lia.
  rewrite skipn_firstn_comm, firstn_firstn, skipn_skipn.
  replace (Nat.min (j - i) (n - i)) with (j - i) by lia.
  now replace (i + pos) with (pos + i) by lia.
Qed.

Lemma occurs_at_bound (sub content : bytes) (i : nat) :
  sub <> [] -> occurs_at sub content i = true -> i + length sub <= length content.
Proof.
  unfold occurs_at. intros Hsub H%starts_with_length.
  rewrite length_skipn in H. destruct sub; [congruence | simpl in *; lia].
Qed.

Lemma find_from_Some (sub l : bytes) (i p : nat) :
  find_from sub l i = Some p ->
  i <= p /\ starts_with sub (skipn (p - i) l) = true
  /\ forall k, k < p - i -> starts_with sub (skipn k l) = false.
Proof.
  revert i; induction l as [|x l IH]; intros i; simpl.
  - destruct (starts_with sub []) eqn:E; [|discriminate].
    intros [= <-]. rewrite Nat.sub_diag. simpl. repeat split; [lia | assumption | lia].
  - destruct (starts_with sub (x :: l)) eqn:E.
    + intros [= <-]. rewrite Nat.sub_diag. simpl. repeat split; [lia | assumption | lia].
    + intros (Hle & Hocc & Hmin)%IH.
      replace (p - i) with (S (p - S i)) by lia. simpl.
      repeat split; [lia | assumption |].
      intros [|k] Hk; simpl; [assumption | apply Hmin; lia].
Qed.

Lemma find_from_None (sub l : bytes) (i : nat) :
  find_from sub l i = None -> forall k, starts_with sub (skipn k l) = false.
Proof.
  revert i; induction l as [|x l IH]; intros i; simpl.
  - destruct (starts_with sub []) eqn:E; [discriminate|].
    intros _ k. now rewrite skipn_nil.
  - destruct (starts_with sub (x :: l)) eqn:E; [discriminate|].
    intros H [|k]; simpl; [assumption | now apply (IH (S i))].
Qed.

(** [find] returns the lowest occurrence at or after [start]. *)
Lemma find_Some (content sub : bytes) (start p : nat) :
  find content sub start = Some p ->
  start <= p /\ occurs_at sub content p = true
  /\ forall k, start <= k < p -> occurs_at sub content k = false.
Proof.
  unfold find, occurs_at. destruct (start <=? length content) eqn:E; [|discriminate].
  intros (Hle & Hocc & Hmin)%find_from_Some.
  rewrite skipn_skipn in Hocc. replace (p - start + start) with p in Hocc by lia.
  repeat split; [assumption | assumption |].
  intros k Hk. specialize (Hmin (k - start)). rewrite skipn_skipn in Hmin.
  replace (k - start + start) with k in Hmin by lia. apply Hmin. lia.
Qed.

Lemma find_None (content sub : bytes) (start : nat) :
  sub <> [] -> find content sub start = None ->
  forall k, start <= k -> occurs_at sub content k = false.
Proof.
  unfold find, occurs_at. intros Hsub H k Hk.
  destruct (start <=? length content) eqn:E.
  - pose proof (find_from_None _ _ _ H (k - start)) as Hn.
    rewrite skipn_skipn in Hn. now replace (k - start + start) with k in Hn by lia.
  - apply Nat.leb_gt in E. rewrite skipn_all2 by lia.
    destruct sub; [congruence | reflexivity].
Qed.

Lemma find_complete (content sub : bytes) (start k : nat) :
  sub <> [] -> start <= k -> occurs_at sub content k = true ->
  exists p, find content sub start = Some p /\ p <= k.
Proof.
  intros Hsub Hk Hocc. destruct (find content sub start) as [p|] eqn:E.
  - exists p. split; [reflexivity|].
    destruct (Nat.le_gt_cases p k) as [|Hlt]; [assumption|].
    apply find_Some in E as (_ & _ & Hmin). rewrite Hmin in Hocc by lia. discriminate.
  - rewrite (find_None _ _ _ Hsub E k Hk) in Hocc. discriminate.
Qed.

Lemma read_at_most_firstn (n : N) (content : bytes) :
  read_at_most n content = firstn (N.to_nat n) content.
Proof.
  revert n; induction content as [|x rest IH]; intros n; simpl.
  - now rewrite firstn_nil.
  - destruct (N.eqb_spec n 0) as [->|Hn]; [reflexivity|].
    rewrite IH. replace (N.to_nat n) with (S (N.to_nat (N.pred n))) by lia.
    reflexivity.
Qed.

(** The marker cannot overlap itself: [f] is only its first letter. *)
Lemma marker_no_overlap (content : bytes) (p k : nat) :
  occurs_at MARKER_FREE_GPS content p = true -> 1 <= k <= 7 ->
  occurs_at MARKER_FREE_GPS content (p + k) = false.
Proof.
  unfold occurs_at. intros [rest Hp]%starts_with_app Hk.
  replace (p + k) with (k + p) by lia. rewrite <- skipn_skipn, Hp.
  destruct k as [|[|[|[|[|[|[|[|k]]]]]]]]; try lia; reflexivity.
Qed.

(* ------------------------------------------------------------------ *)
(** ** Facts about the scan loop *)

Lemma marker_nonempty : MARKER_FREE_GPS <> [].
Proof. discriminate. Qed.

(** The brand test on the 256-byte window is a test on the buffer. *)
Lemma window_brand (content : bytes) (pos : nat) :
  bytes_eqb (slice (slice content pos (pos + 256)) 12 22) MARKER_YOUQING
  = brand_at content pos.
Proof. unfold brand_at. now rewrite slice_window by lia. Qed.

Lemma loop_body_break (content : bytes) (st : scan_state) :
  loop_body content st = None <-> find content MARKER_FREE_GPS (offset st) = None.
Proof.
  unfold loop_body. destruct (find content MARKER_FREE_GPS (offset st)).
  - destruct (negb _); split; discriminate.
  - tauto.
Qed.

Lemma loop_body_match (content : bytes) (st : scan_state) (pos : nat) :
  find content MARKER_FREE_GPS (offset st) = Some pos ->
  exists st', loop_body content st = Some st'
    /\ offset st' = pos + 8
    /\ yielded st' = yielded st ++ (if brand_at content pos then [pos] else [])
    /\ (brand_at content pos = false -> found st' = found st).
Proof.
  intros Hfind. unfold loop_body. rewrite Hfind, window_brand.
  destruct (brand_at content pos); simpl; eexists; split; try reflexivity; simpl.
  - repeat split. discriminate.
  - repeat split. now rewrite app_nil_r.
Qed.

Lemma parse_loop_terminates_from (content : bytes) (fuel : nat) (st : scan_state) :
  length content <= offset st + fuel ->
  exists st', parse_loop (S fuel) content st = Some st'.
Proof.
  revert st; induction fuel as [|fuel IH]; intros st Hlen.
  - cbn [parse_loop]. destruct (find content MARKER_FREE_GPS (offset st)) as [pos|] eqn:F.
    + apply find_Some in F as (Hle & Hocc & _).
      apply occurs_at_bound in Hocc; [|apply marker_nonempty].
      simpl in Hocc. lia.
    + apply loop_body_break in F. rewrite F. now exists st.
  - cbn [parse_loop]. destruct (find content MARKER_FREE_GPS (offset st)) as [pos|] eqn:F.
    + destruct (loop_body_match _ _ _ F) as (st1 & -> & Hoff & _).
      apply find_Some in F as (Hle & _). apply IH. lia.
    + apply loop_body_break in F. rewrite F. now exists st.
Qed.

Lemma parse_loop_terminates (content : bytes) : exists st, scan content = Some st.
Proof. apply parse_loop_terminates_from. simpl. lia. Qed.

Lemma filter_seq_none (f : nat -> bool) (a n : nat) :
  (forall k, a <= k < a + n -> f k = false) -> List.filter f (seq a n) = [].
Proof.
  revert a; induction n as [|n IH]; intros a H; simpl; [reflexivity|].
  rewrite H by lia. apply IH. intros k Hk. apply H. lia.
Qed.

Lemma filter_seq_sorted (f : nat -> bool) (a n : nat) :
  StronglySorted lt (List.filter f (seq a n)).
Proof.
  revert a; induction n as [|n IH]; intros a; simpl; [constructor|].
  destruct (f a); [|apply IH]. constructor; [apply IH|].
  apply List.Forall_forall. intros k [Hk _]%filter_In. apply in_seq in Hk. lia.
Qed.

(** The offsets a scan hands to the decoder from a given cursor on: every
    branded marker at or after the cursor, in ascending order. *)
Lemma parse_loop_yielded (content : bytes) (fuel : nat) (st st' : scan_state) :
  parse_loop fuel content st = Some st' ->
  yielded st' = yielded st
    ++ List.filter (valid_record content) (seq (offset st) (length content - offset st)).
Proof.
  revert st; induction fuel as [|fuel IH]; intros st; cbn [parse_loop]; [discriminate|].
  destruct (find content MARKER_FREE_GPS (offset st)) as [pos|] eqn:F.
  - destruct (loop_body_match _ _ _ F) as (st1 & -> & Hoff & Hy & _).
    intros ->%IH. rewrite Hy, Hoff, <- app_assoc. f_equal.
    apply find_Some in F as (Hle & Hocc & Hmin).
    pose proof (occurs_at_bound _ _ _ marker_nonempty Hocc) as Hb. simpl in Hb.
    replace (length content - offset st)
      with ((pos - offset st) + (1 + (7 + (length content - (pos + 8))))) by lia.
    rewrite !seq_app, !List.filter_app.
    replace (offset st + (pos - offset st)) with pos by lia.
    rewrite (filter_seq_none _ (offset st)).
    2:{ intros k Hk. unfold valid_record. rewrite Hmin by lia. reflexivity. }
    rewrite (filter_seq_none _ (pos + 1)).
    2:{ intros k Hk. unfold valid_record.
        replace k with (pos + (k - pos)) by lia.
        rewrite marker_no_overlap by (assumption || lia). reflexivity. }
    replace (pos + 1 + 7) with (pos + 8) by lia.
    cbn [seq List.filter app]. unfold valid_record at 2. rewrite Hocc.
    now destruct (brand_at content pos).
  - apply loop_body_break in F. rewrite F. intros [= <-].
    rewrite filter_seq_none; [now rewrite app_nil_r|].
    intros k Hk. unfold valid_record.
    apply loop_body_break in F.
    rewrite (find_None _ _ _ marker_nonempty F) by lia. reflexivity.
Qed.

Lemma scan_yielded (content : bytes) (st : scan_state) :
  scan content = Some st ->
  yielded st = List.filter (valid_record content) (seq 0 (length content)).
Proof.
  intros H%parse_loop_yielded. simpl in H. now rewrite Nat.sub_0_r in H.
Qed.

Lemma valid_record_bound (content : bytes) (p : nat) :
  valid_record content p = true -> p + 8 <= length content.
Proof.
  unfold valid_record. intros [H _]%andb_true_iff.
  now apply occurs_at_bound in H; [|apply marker_nonempty].
Qed.

(** The brand of one record and the marker of another cannot share a byte,
    so two records lie at least 22 bytes apart. *)
Lemma valid_records_apart (content : bytes) (p k : nat) :
  valid_record content p = true -> 1 <= k <= 21 ->
  valid_record content (p + k) = false.
Proof.
  unfold valid_record, occurs_at, brand_at, slice.
  intros [[rest Hp]%starts_with_app Hb%bytes_eqb_eq]%andb_true_iff Hk.
  apply andb_false_iff. left.
  replace (p + 22 - (p + 12)) with 10 in Hb by lia.
  replace (p + 12) with (12 + p) in Hb by lia.
  rewrite <- skipn_skipn, Hp in Hb.
  replace (p + k) with (k + p) by lia. rewrite <- skipn_skipn, Hp.
  vm_compute in Hb.
  destruct rest as [|r0 [|r1 [|r2 [|r3 [|r4 [|r5 [|r6 [|r7 [|r8 [|r9 [|r10 [|r11 [|r12 [|r13 rest]]]]]]]]]]]]]];
    try discriminate Hb.
  injection Hb as -> -> -> -> -> -> -> -> -> ->.
  destruct (starts_with _ _) eqn:E; [exfalso|reflexivity].
  apply starts_with_app in E as [rest' E].
  do 22 (destruct k as [|k]; [first [lia | vm_compute in E; discriminate E]|]). lia.
Qed.

Lemma no_records_8_apart :
  ~ exists content p,
      valid_record content p = true /\ valid_record content (p + 8) = true.
Proof.
  intros (content & p & Hp & Hq).
  rewrite (valid_records_apart content p 8 Hp) in Hq by lia. discriminate.
Qed.

(* ------------------------------------------------------------------ *)
(** ** Facts about the record decoder *)

Lemma slice_cons (b : bytes) (i j : nat) :
  i < j -> i < length b -> slice b i j = byte_at b i :: slice b (S i) j.
Proof.
  unfold slice, byte_at. intros Hij. replace (j - i) with (S (j - S i)) by lia.
  generalize (j - S i) as n. clear Hij j. intros n.
  revert i; induction b as [|x b IH]; intros i Hi; simpl in Hi; [lia|].
  destruct i as [|i]; [reflexivity|].
  cbn [skipn nth]. rewrite IH by lia. reflexivity.
Qed.

Lemma slice_empty (b : bytes) (i : nat) : slice b i i = [].
Proof. unfold slice. now rewrite Nat.sub_diag. Qed.

Lemma slice_4 (b : bytes) (i : nat) :
  i + 4 <= length b ->
  slice b i (i + 4)
  = [byte_at b i; byte_at b (S i); byte_at b (S (S i)); byte_at b (S (S (S i)))].
Proof.
  intros H. rewrite !slice_cons by lia.
  replace (i + 4) with (S (S (S (S i)))) by lia. now rewrite slice_empty.
Qed.

Lemma byte_to_N_nonneg (x : byte) (k : Z) : (0 <= Z.shiftl (Z.of_N (Byte.to_N x)) k)%Z.
Proof. apply Z.shiftl_nonneg. lia. Qed.

Lemma raw_u32_ok (chunk : bytes) (i : nat) :
  i + 4 <= length chunk -> exists w, raw_u32 chunk i = Ret w /\ (0 <= w)%Z.
Proof.
  intros H. unfold raw_u32. rewrite slice_4 by assumption. cbn [unpack_u32].
  eexists; split; [reflexivity|].
  repeat (apply Z.lor_nonneg; split); try apply byte_to_N_nonneg. lia.
Qed.

Lemma raw_f32_ok (chunk : bytes) (i : nat) :
  i + 4 <= length chunk -> exists x, raw_f32 chunk i = Ret x.
Proof.
  intros H. unfold raw_f32, unpack_f32. fold (raw_u32 chunk i).
  destruct (raw_u32_ok chunk i H) as (w & -> & _). now eexists.
Qed.

Lemma code_point_S (x : byte) : N.eqb (code_point x) (ord "S") = Byte.eqb x "S"%byte.
Proof. destruct x; reflexivity. Qed.

Lemma code_point_W (x : byte) : N.eqb (code_point x) (ord "W") = Byte.eqb x "W"%byte.
Proof. destruct x; reflexivity. Qed.

Lemma code_point_A (x : byte) : N.eqb (code_point x) (ord "A") = Byte.eqb x "A"%byte.
Proof. destruct x; reflexivity. Qed.

Lemma status_text (chunk : bytes) :
  71 <= length chunk ->
  decode_ascii_replace (slice chunk 68 71)
  = [code_point (byte_at chunk 68); code_point (byte_at chunk 69);
     code_point (byte_at chunk 70)].
Proof.
  intros H. rewrite !slice_cons by lia. now rewrite slice_empty.
Qed.

Lemma nmea_to_decimal_finite (q : Q) :
  nmea_to_decimal (Finite q) = Ret (Finite (nmea_value q)).
Proof. reflexivity. Qed.

Lemma nmea_to_decimal_Ret (x y : pyfloat) :
  nmea_to_decimal x = Ret y <-> exists q, x = Finite q /\ y = Finite (nmea_value q).
Proof.
  split.
  - destruct x as [q| |]; try discriminate.
    rewrite nmea_to_decimal_finite. intros [= <-]. now exists q.
  - intros (q & -> & ->). apply nmea_to_decimal_finite.
Qed.

Lemma fits_c_int_year_full (year : Z) :
  (0 <= year)%Z -> fits_c_int (year_full_of year) = fits_c_int year.
Proof.
  intros H. unfold fits_c_int, year_full_of, INT_MIN, INT_MAX.
  destruct (Z.ltb_spec year 100); [|reflexivity].
  apply eq_true_iff_eq. rewrite !andb_true_iff, !Z.leb_le. lia.
Qed.

Lemma fits_c_int_hour (hour : Z) : fits_c_int (hour mod 24) = true.
Proof.
  unfold fits_c_int, INT_MIN, INT_MAX.
  pose proof (Z.mod_pos_bound hour 24 ltac:(lia)).
  apply andb_true_iff; rewrite !Z.leb_le. lia.
Qed.

(** The [try] block that builds the timestamp: a word above [INT_MAX]
    escapes it, any other impossible date is caught. *)
Lemma timestamp_block (year hour minute day month second : Z) :
  (0 <= year)%Z ->
  except_ValueError
    (do t <- datetime_new (year_full_of year) month day (hour mod 24) minute second;
     Ret (Some t)) None
  = if forallb fits_c_int [year; month; day; minute; second]
    then Ret (timestamp_of year hour minute day month second)
    else Raise OverflowError.
Proof.
  intros Hy. unfold datetime_new, timestamp_of. cbn [forallb].
  rewrite fits_c_int_year_full, fits_c_int_hour by assumption.
  destruct (fits_c_int year), (fits_c_int month), (fits_c_int day),
    (fits_c_int minute), (fits_c_int second); try reflexivity.
  cbn [andb negb]. now destruct (real_datetime _ _ _ _ _ _).
Qed.

Lemma decoded_speed_eq (chunk : bytes) :
  (if 112 <=? length chunk then
     except_Exception
       (do raw_speed <- unpack_f32 (slice chunk 108 112);
        Ret (if fle (float_of_int 0) raw_speed && flt raw_speed (float_of_int 500)
             then raw_speed else Finite 0))
       (Finite 0)
   else Finite 0) = decoded_speed chunk.
Proof.
  unfold decoded_speed, raw_f32. change (108 + 4) with 112.
  destruct (112 <=? length chunk); [|reflexivity].
  now destruct (unpack_f32 (slice chunk 108 112)).
Qed.

(** What the decoder computes on a candidate long enough to be read. *)
Lemma _parse_chunk_long (chunk : bytes) :
  72 <= length chunk ->
  exists lat_nmea lon_nmea year hour minute day month second,
    raw_f32 chunk 36 = Ret lat_nmea /\ raw_f32 chunk 40 = Ret lon_nmea
    /\ raw_u32 chunk 44 = Ret year /\ raw_u32 chunk 48 = Ret hour
    /\ raw_u32 chunk 52 = Ret minute /\ raw_u32 chunk 56 = Ret day
    /\ raw_u32 chunk 60 = Ret month /\ raw_u32 chunk 64 = Ret second
    /\ _parse_chunk chunk =
       if feq lat_nmea (float_of_int 0) || feq lon_nmea (float_of_int 0)
       then Ret None
       else
         do lat <- nmea_to_decimal lat_nmea;
         do lon <- nmea_to_decimal lon_nmea;
         if forallb fits_c_int [year; month; day; minute; second]
         then Ret (Some (mk_GPSPoint
                           (negated_on chunk 69 "S" lat) (negated_on chunk 70 "W" lon)
                           (timestamp_of year hour minute day month second)
                           (decoded_speed chunk) (Finite 0) None
                           (if Byte.eqb (byte_at chunk 68) "A" then 1 else 0)%Z
                           0%Z None None None))
         else Raise OverflowError.
Proof.
  intros Hlen.
  destruct (raw_f32_ok chunk 36 ltac:(lia)) as (lat_nmea & Hlat).
  destruct (raw_f32_ok chunk 40 ltac:(lia)) as (lon_nmea & Hlon).
  destruct (raw_u32_ok chunk 44 ltac:(lia)) as (year & Hyear & Hy0).
  destruct (raw_u32_ok chunk 48 ltac:(lia)) as (hour & Hhour & _).
  destruct (raw_u32_ok chunk 52 ltac:(lia)) as (minute & Hminute & _).
  destruct (raw_u32_ok chunk 56 ltac:(lia)) as (day & Hday & _).
  destruct (raw_u32_ok chunk 60 ltac:(lia)) as (month & Hmonth & _).
  destruct (raw_u32_ok chunk 64 ltac:(lia)) as (second & Hsecond & _).
  exists lat_nmea, lon_nmea, year, hour, minute, day, month, second.
  repeat (split; [assumption|]).
  unfold _parse_chunk.
  replace (length chunk <? 72) with false by (symmetry; apply Nat.ltb_ge; lia).
  rewrite decoded_speed_eq, status_text by lia.
  change (unpack_f32 (slice chunk 36 40)) with (raw_f32 chunk 36).
  change (unpack_f32 (slice chunk 40 44)) with (raw_f32 chunk 40).
  change (unpack_u32 (slice chunk 44 48)) with (raw_u32 chunk 44).
  change (unpack_u32 (slice chunk 48 52)) with (raw_u32 chunk 48).
  change (unpack_u32 (slice chunk 52 56)) with (raw_u32 chunk 52).
  change (unpack_u32 (slice chunk 56 60)) with (raw_u32 chunk 56).
  change (unpack_u32 (slice chunk 60 64)) with (raw_u32 chunk 60).
  change (unpack_u32 (slice chunk 64 68)) with (raw_u32 chunk 64).
  rewrite Hlat, Hlon, Hyear, Hhour, Hminute, Hday, Hmonth, Hsecond.
  cbn [bind]. destruct (feq lat_nmea _ || feq lon_nmea _); [reflexivity|].
  destruct (nmea_to_decimal lat_nmea) as [lat|e]; [|reflexivity].
  destruct (nmea_to_decimal lon_nmea) as [lon|e]; [|reflexivity].
  cbn [bind length Nat.ltb Nat.leb nth].
  fold (year_full_of year). rewrite (timestamp_block year hour) by assumption.
  rewrite code_point_S, code_point_W, code_point_A.
  destruct (forallb fits_c_int _); reflexivity.
Qed.

(* ------------------------------------------------------------------ *)
(** ** The NMEA codec *)

Lemma Qtrunc_floor (q : Q) : (0 <= q)%Q -> Qtrunc q = Qfloor q.
Proof.
  destruct q as [a b]. unfold Qtrunc, Qfloor, Qle. simpl. intros H.
  apply Z.quot_div_nonneg; lia.
Qed.

Lemma Qfloor_unique (q : Q) (n : Z) :
  (inject_Z n <= q)%Q -> (q < inject_Z n + 1)%Q -> Qfloor q = n.
Proof.
  intros Hlo Hhi.
  pose proof (Qfloor_le q) as Flo. pose proof (Qlt_floor q) as Fhi.
  assert (n < Qfloor q + 1)%Z.
  { rewrite Zlt_Qlt. eapply Qle_lt_trans; eassumption. }
  assert (Qfloor q < n + 1)%Z.
  { rewrite Zlt_Qlt, inject_Z_plus. eapply Qle_lt_trans; eassumption. }
  lia.
Qed.

Lemma Qtrunc_unique (q : Q) (n : Z) :
  (0 <= n)%Z -> (inject_Z n <= q)%Q -> (q < inject_Z n + 1)%Q -> Qtrunc q = n.
Proof.
  intros Hn Hlo Hhi. rewrite Qtrunc_floor; [now apply Qfloor_unique|].
  apply Qle_trans with (inject_Z n); [|assumption].
  change 0%Q with (inject_Z 0). now rewrite <- Zle_Qle.
Qed.

Lemma Qtrunc_bounds (q : Q) :
  (0 <= q)%Q ->
  (0 <= Qtrunc q)%Z /\ (inject_Z (Qtrunc q) <= q)%Q /\ (q < inject_Z (Qtrunc q) + 1)%Q.
Proof.
  intros H. rewrite Qtrunc_floor by assumption. repeat split.
  - change 0%Z with (Qfloor 0). now apply Qfloor_resp_le.
  - apply Qfloor_le.
  - rewrite <- (inject_Z_plus _ 1). apply Qlt_floor.
Qed.

(** On a rational the codec is exact: decoding what was encoded gives back
    the absolute value. *)
Lemma nmea_roundtrip_finite (d : Q) :
  exists r, nmea_roundtrip (Finite d) = Ret (Finite r) /\ r == Qabs d.
Proof.
  unfold nmea_roundtrip, decimal_to_nmea.
  cbn [fabs py_int bind fsub fadd fneg fmul float_of_int].
  rewrite nmea_to_decimal_finite. eexists; split; [reflexivity|].
  destruct (Qtrunc_bounds (Qabs d) (Qabs_nonneg d)) as (Hn & Hlo & Hhi).
  set (n := Qtrunc (Qabs d)) in *. set (a := Qabs d) in *.
  unfold nmea_value. rewrite inject_Z_mult. change (inject_Z 100) with 100%Q.
  change (inject_Z 60) with 60%Q.
  assert (E : (inject_Z n * 100 + (a + - inject_Z n) * 60) / 100
              == inject_Z n + (a - inject_Z n) * (3 # 5)) by field.
  rewrite (Qtrunc_unique _ n Hn).
  - rewrite inject_Z_mult. change (inject_Z 100) with 100%Q. field.
  - rewrite E. lra.
  - rewrite E. lra.
Qed.

(** C2 (amended).  For every decimal-degrees value [d] with [|d| < 180],
    encoding and then decoding gives back [|d|], exactly: it is [d] itself
    when [d] is not negative, and [-d] when it is. *)
Theorem nmea_roundtrip_abs (d : Q) :
  (Qabs d < 180)%Q ->
  exists r, nmea_roundtrip (Finite d) = Ret (Finite r)
    /\ r == Qabs d
    /\ ((0 <= d)%Q -> r == d)
    /\ ((d < 0)%Q -> r == - d).
Proof.
  intros _. destruct (nmea_roundtrip_finite d) as (r & Hr & E).
  exists r. repeat split; [assumption | assumption | |].
  - intros H. now rewrite E, Qabs_pos.
  - intros H. rewrite E, Qabs_neg; [reflexivity | lra].
Qed.

(** C2, witness: 77.5 degrees. *)
Lemma nmea_roundtrip_abs_77_5 :
  (Qabs (155 # 2) < 180)%Q
  /\ exists r, nmea_roundtrip (Finite (155 # 2)) = Ret (Finite r)
       /\ r == Qabs (155 # 2)
       /\ ((0 <= 155 # 2)%Q -> r == 155 # 2)
       /\ ((155 # 2 < 0)%Q -> r == - (155 # 2)).
Proof.
  split; [reflexivity|]. apply (nmea_roundtrip_abs (155 # 2)). reflexivity.
Defined.

(** C2, counterexample: -38.5 degrees comes back as 38.5. *)
Lemma roundtrip_loses_sign :
  ~ ((Qabs (- (77 # 2)) < 180)%Q -> roundtrip_recovers (- (77 # 2))).
Proof.
  intros H. destruct H as (r & Hr & E); [reflexivity|].
  vm_compute in Hr. injection Hr as <-. vm_compute in E. discriminate E.
Qed.

(* ------------------------------------------------------------------ *)
(** ** The record decoder: rejection, timestamp, status bytes, speed *)

Lemma _parse_chunk_short (chunk : bytes) :
  length chunk < 72 -> _parse_chunk chunk = Ret None.
Proof.
  intros H. unfold _parse_chunk.
  now replace (length chunk <? 72) with true by (symmetry; apply Nat.ltb_lt; lia).
Qed.

Lemma zero_field_Ret (chunk : bytes) (i : nat) (x : pyfloat) :
  raw_f32 chunk i = Ret x -> zero_field chunk i = feq x (float_of_int 0).
Proof. unfold zero_field. now intros ->. Qed.

Lemma finite_field_Ret (chunk : bytes) (i : nat) (x : pyfloat) :
  raw_f32 chunk i = Ret x ->
  finite_field chunk i = match x with Finite _ => true | _ => false end.
Proof. unfold finite_field. now intros ->. Qed.

Lemma c_int_field_Ret (chunk : bytes) (i : nat) (z : Z) :
  raw_u32 chunk i = Ret z -> c_int_field chunk i = fits_c_int z.
Proof. unfold c_int_field. now intros ->. Qed.

(** The outcome of the decoder on a long candidate, by cases on its words. *)
Ltac decoder_cases chunk H :=
  destruct (_parse_chunk_long chunk H)
    as (lat_nmea & lon_nmea & year & hour & minute & day & month & second
        & Hlat & Hlon & Hyear & Hhour & Hminute & Hday & Hmonth & Hsecond & Heq).

Lemma _parse_chunk_None_iff (chunk : bytes) :
  _parse_chunk chunk = Ret None
  <-> length chunk < 72 \/ zero_field chunk 36 = true \/ zero_field chunk 40 = true.
Proof.
  destruct (Nat.lt_ge_cases (length chunk) 72) as [Hshort|Hlong].
  - split; [now left | intros _; now apply _parse_chunk_short].
  - decoder_cases chunk Hlong.
    rewrite (zero_field_Ret _ _ _ Hlat), (zero_field_Ret _ _ _ Hlon), Heq.
    destruct (feq lat_nmea (float_of_int 0)); [split; [now right; left | reflexivity]|].
    destruct (feq lon_nmea (float_of_int 0)); [split; [now right; right | reflexivity]|].
    cbn [orb].
    destruct (nmea_to_decimal lat_nmea) as [lat|e]; cbn [bind];
      [|split; [discriminate | intros [?|[[=]|[=]]]; lia]].
    destruct (nmea_to_decimal lon_nmea) as [lon|e]; cbn [bind];
      [|split; [discriminate | intros [?|[[=]|[=]]]; lia]].
    destruct (forallb fits_c_int _);
      (split; [discriminate | intros [?|[[=]|[=]]]; lia]).
Qed.

Lemma yields_sample_iff (chunk : bytes) :
  yields_sample chunk = true
  <-> 72 <= length chunk
      /\ finite_field chunk 36 = true /\ zero_field chunk 36 = false
      /\ finite_field chunk 40 = true /\ zero_field chunk 40 = false
      /\ forallb (c_int_field chunk) [44; 52; 56; 60; 64] = true.
Proof.
  destruct (Nat.lt_ge_cases (length chunk) 72) as [Hshort|Hlong].
  - unfold yields_sample. rewrite _parse_chunk_short by assumption.
    split; [discriminate | lia].
  - decoder_cases chunk Hlong.
    cbn [forallb].
    rewrite (zero_field_Ret _ _ _ Hlat), (zero_field_Ret _ _ _ Hlon),
      (finite_field_Ret _ _ _ Hlat), (finite_field_Ret _ _ _ Hlon),
      (c_int_field_Ret _ _ _ Hyear), (c_int_field_Ret _ _ _ Hminute),
      (c_int_field_Ret _ _ _ Hday), (c_int_field_Ret _ _ _ Hmonth),
      (c_int_field_Ret _ _ _ Hsecond).
    unfold yields_sample. rewrite Heq. clear Heq. cbn [forallb].
    destruct (feq lat_nmea (float_of_int 0));
      [split; [discriminate | intros (_ & _ & [=] & _)]|].
    destruct (feq lon_nmea (float_of_int 0));
      [split; [discriminate | intros (_ & _ & _ & _ & [=] & _)]|].
    cbn [orb].
    destruct lat_nmea as [qlat| |];
      try (split; [discriminate | intros (_ & [=] & _)]).
    destruct lon_nmea as [qlon| |];
      try (split; [discriminate | intros (_ & _ & _ & [=] & _)]).
    rewrite !nmea_to_decimal_finite. cbn [bind].
    destruct (fits_c_int year), (fits_c_int month), (fits_c_int day),
      (fits_c_int minute), (fits_c_int second); cbn [andb];
      first [ split; [discriminate | intros (_ & _ & _ & _ & _ & [=])]
            | split; [intros _; repeat (split; try reflexivity); assumption
                     | reflexivity] ].
Qed.

(** A NaN or an infinity in an NMEA word is not the zero sentinel, and
    [int] raises on it inside [nmea_to_decimal]. *)
Lemma _parse_chunk_not_finite (chunk : bytes) :
  72 <= length chunk ->
  zero_field chunk 36 = false -> zero_field chunk 40 = false ->
  finite_field chunk 36 = false \/ finite_field chunk 40 = false ->
  exists e, _parse_chunk chunk = Raise e.
Proof.
  intros Hlong. decoder_cases chunk Hlong.
  rewrite (zero_field_Ret _ _ _ Hlat), (zero_field_Ret _ _ _ Hlon),
    (finite_field_Ret _ _ _ Hlat), (finite_field_Ret _ _ _ Hlon), Heq.
  intros -> ->. cbn [orb].
  destruct lat_nmea as [qlat| |]; try (intros _; now eexists).
  destruct lon_nmea as [qlon| |]; try (intros _; now eexists).
  intros [[=]|[=]].
Qed.

(** C1 (amended).  The decoder returns its reject value exactly when the
    candidate is shorter than 72 bytes or one of the two raw NMEA words
    compares equal to 0.  A candidate of at least 72 bytes whose NMEA words
    are nonzero yields a sample when both words are finite and the year,
    minute, day, month and second words fit a C [int]; when one of the NMEA
    words is NaN or an infinity an exception leaves the decoder and there is
    no sample. *)
Theorem decoder_rejection (chunk : bytes) :
  (_parse_chunk chunk = Ret None
   <-> length chunk < 72 \/ zero_field chunk 36 = true \/ zero_field chunk 40 = true)
  /\ (72 <= length chunk ->
      zero_field chunk 36 = false -> zero_field chunk 40 = false ->
      (finite_field chunk 36 = true -> finite_field chunk 40 = true ->
       forallb (c_int_field chunk) [44; 52; 56; 60; 64] = true ->
       exists p, _parse_chunk chunk = Ret (Some p))
      /\ (finite_field chunk 36 = false \/ finite_field chunk 40 = false ->
          exists e, _parse_chunk chunk = Raise e)).
Proof.
  split; [apply _parse_chunk_None_iff|].
  intros Hlong Zlat Zlon. split.
  - intros Flat Flon Hfit.
    assert (Y : yields_sample chunk = true) by (apply yields_sample_iff; tauto).
    unfold yields_sample in Y.
    destruct (_parse_chunk chunk) as [[p|]|e]; try discriminate Y. now exists p.
  - now apply _parse_chunk_not_finite.
Qed.

(** C1, witness: [good_record] yields a sample, its first 71 bytes are
    rejected, and [nan_record] makes the decoder raise. *)
Lemma decoder_rejection_samples :
  (exists p, _parse_chunk good_record = Ret (Some p))
  /\ _parse_chunk (firstn 71 good_record) = Ret None
  /\ (exists e, _parse_chunk nan_record = Raise e).
Proof.
  split_and!.
  - destruct (decoder_rejection good_record) as (_ & H).
    apply H; vm_compute; reflexivity || lia.
  - destruct (decoder_rejection (firstn 71 good_record)) as (H & _).
    apply H. left. vm_compute. lia.
  - destruct (decoder_rejection nan_record) as (_ & H).
    apply H; [vm_compute; lia | vm_compute; reflexivity ..| left; vm_compute; reflexivity].
Defined.

(** C1, counterexample.  Against the rule with 71 bytes: a 71-byte
    candidate with nonzero NMEA words is rejected; so is a full record
    whose latitude word is NaN, and one whose month word is [2^31]. *)
Lemma rejection_rule_71_fails :
  ~ rejection_rule_71 (firstn 71 good_record)
  /\ ~ rejection_rule_71 nan_record
  /\ ~ rejection_rule_71 big_month_record.
Proof.
  unfold rejection_rule_71. repeat split; intros [H _];
    (destruct H as [H|[H|H]]; [vm_compute; reflexivity | | | ]);
    vm_compute in H; try discriminate H; lia.
Qed.

(** C4 (amended).  For a candidate of at least 72 bytes whose two NMEA
    words are finite and nonzero and whose year, minute, day, month and
    second words fit a C [int], the decoder hands back a sample.  Its
    timestamp is built from the year with 2000 added when the word is below
    100, the hour reduced modulo 24, and the other four words as read: it is
    that date when the six numbers name a real calendar date and time, and
    absent otherwise.  Latitude, longitude and speed are finite numbers in
    both cases. *)
Theorem timestamp_built_or_absent
    (chunk : bytes) (year hour minute day month second : Z) :
  passes_checks chunk ->
  finite_field chunk 36 = true -> finite_field chunk 40 = true ->
  raw_u32 chunk 44 = Ret year -> raw_u32 chunk 48 = Ret hour ->
  raw_u32 chunk 52 = Ret minute -> raw_u32 chunk 56 = Ret day ->
  raw_u32 chunk 60 = Ret month -> raw_u32 chunk 64 = Ret second ->
  forallb fits_c_int [year; minute; day; month; second] = true ->
  let year_full := (if year <? 100 then 2000 + year else year)%Z in
  let hour_clamped := (hour mod 24)%Z in
  exists p,
    _parse_chunk chunk = Ret (Some p)
    /\ (real_datetime year_full month day hour_clamped minute second = true ->
        timestamp p = Some (mk_datetime year_full month day hour_clamped minute second))
    /\ (real_datetime year_full month day hour_clamped minute second = false ->
        timestamp p = None)
    /\ exists lat lon v,
         latitude p = Finite lat /\ longitude p = Finite lon /\ speed p = Finite v.
Proof.
  intros (Hlong & Zlat & Zlon) Flat Flon Hy Hh Hmi Hd Hmo Hs Hfit; cbn zeta.
  destruct (_parse_chunk_long chunk Hlong)
    as (lat_nmea & lon_nmea & y & h & mi & d & mo & s
        & Hlat & Hlon & Hyear & Hhour & Hminute & Hday & Hmonth & Hsecond & Heq).
  rewrite Hy in Hyear; rewrite Hh in Hhour; rewrite Hmi in Hminute;
    rewrite Hd in Hday; rewrite Hmo in Hmonth; rewrite Hs in Hsecond.
  injection Hyear as <-; injection Hhour as <-; injection Hminute as <-;
    injection Hday as <-; injection Hmonth as <-; injection Hsecond as <-.
  rewrite (zero_field_Ret _ _ _ Hlat) in Zlat.
  rewrite (zero_field_Ret _ _ _ Hlon) in Zlon.
  rewrite (finite_field_Ret _ _ _ Hlat) in Flat.
  rewrite (finite_field_Ret _ _ _ Hlon) in Flon.
  destruct lat_nmea as [qlat| |]; try discriminate Flat.
  destruct lon_nmea as [qlon| |]; try discriminate Flon.
  rewrite Zlat, Zlon, !nmea_to_decimal_finite in Heq. cbn [bind orb] in Heq.
  assert (Hfit' : forallb fits_c_int [year; month; day; minute; second] = true).
  { cbn [forallb] in *. rewrite !andb_true_iff in *. tauto. }
  rewrite Hfit' in Heq.
  eexists; split; [exact Heq|]. cbn [timestamp latitude longitude speed].
  unfold timestamp_of, year_full_of. repeat split.
  - now intros ->.
  - now intros ->.
  - assert (Hsp : exists v, decoded_speed chunk = Finite v).
    { unfold decoded_speed. destruct (112 <=? length chunk); [|now eexists].
      destruct (raw_f32 chunk 108) as [raw|e]; [|now eexists].
      unfold in_speed_range.
      destruct raw as [q| |]; cbn [fle flt float_of_int andb];
        try (now eexists).
      - destruct (_ && _); now eexists.
      - destruct negative; now eexists. }
    destruct Hsp as (v & ->).
    unfold negated_on.
    destruct (Byte.eqb (byte_at chunk 69) _), (Byte.eqb (byte_at chunk 70) _);
      cbn [fneg]; do 3 eexists; repeat split.
Qed.

(** C4, witness: month 13 gives a sample without a timestamp. *)
Lemma timestamp_built_or_absent_month13 :
  passes_checks month13_record
  /\ real_datetime 2024 13 15 7 30 45 = false
  /\ exists p,
       _parse_chunk month13_record = Ret (Some p)
       /\ (real_datetime 2024 13 15 7 30 45 = true ->
           timestamp p = Some (mk_datetime 2024 13 15 7 30 45))
       /\ (real_datetime 2024 13 15 7 30 45 = false -> timestamp p = None)
       /\ exists lat lon v,
            latitude p = Finite lat /\ longitude p = Finite lon /\ speed p = Finite v.
Proof.
  assert (Hp : passes_checks month13_record).
  { split; [vm_compute; lia | split; vm_compute; reflexivity]. }
  split; [exact Hp|]. split; [reflexivity|].
  apply (timestamp_built_or_absent month13_record 2024 7 30 15 13 45 Hp);
    reflexivity.
Defined.

(** C4, counterexample.  Two full records with nonzero NMEA words from which
    no sample comes: the latitude word of the first is NaN, the month word of
    the second is [2^31]. *)
Lemma timestamp_rule_fails :
  ~ (passes_checks nan_record -> timestamp_rule nan_record)
  /\ ~ (passes_checks big_month_record -> timestamp_rule big_month_record).
Proof.
  split; intros H.
  - destruct H as (p & y & h & mi & d & mo & s & _ & _ & _ & _ & _ & _ & Hp & _).
    + split; [vm_compute; lia | split; vm_compute; reflexivity].
    + vm_compute in Hp. discriminate Hp.
  - destruct H as (p & y & h & mi & d & mo & s & _ & _ & _ & _ & _ & _ & Hp & _).
    + split; [vm_compute; lia | split; vm_compute; reflexivity].
    + vm_compute in Hp. discriminate Hp.
Qed.

Lemma length_with_status (chunk : bytes) (s68 s69 s70 : byte) :
  71 <= length chunk -> length (with_status chunk s68 s69 s70) = length chunk.
Proof.
  intros H. unfold with_status.
  rewrite !length_app, length_firstn, length_skipn. cbn [length]. lia.
Qed.

(** The bytes before the status text are not touched. *)
Lemma slice_with_status (chunk : bytes) (s68 s69 s70 : byte) (i j : nat) :
  j <= 68 -> 71 <= length chunk ->
  slice (with_status chunk s68 s69 s70) i j = slice chunk i j.
Proof.
  intros Hj Hlen. unfold with_status, slice.
  rewrite skipn_app, firstn_app, length_skipn, length_firstn.
  replace (j - i - (Nat.min 68 (length chunk) - i)) with 0 by lia.
  rewrite firstn_0, app_nil_r, skipn_firstn_comm, firstn_firstn.
  f_equal. lia.
Qed.

Lemma yields_sample_with_status (chunk : bytes) (s68 s69 s70 : byte) :
  71 <= length chunk ->
  yields_sample (with_status chunk s68 s69 s70) = yields_sample chunk.
Proof.
  intros Hlen. apply eq_true_iff_eq. rewrite !yields_sample_iff.
  rewrite length_with_status by assumption.
  unfold finite_field, zero_field, c_int_field, raw_f32, raw_u32. cbn [forallb].
  now rewrite !slice_with_status by (assumption || lia).
Qed.

(** C6.  When the decoder accepts a candidate, the latitude of the sample is
    the NMEA-decoded latitude word, negated exactly when byte 69 is [S]; the
    longitude is the NMEA-decoded longitude word, negated exactly when byte
    70 is [W]; the fix quality is 1 when byte 68 is [A] and 0 otherwise; the
    heading is 0.  Whether a candidate is accepted does not depend on its
    three status bytes: no value of theirs makes the decoder fail. *)
Theorem status_bytes_applied (chunk : bytes) (p : GPSPoint) :
  _parse_chunk chunk = Ret (Some p) ->
  (exists lat lon,
      (do x <- raw_f32 chunk 36; nmea_to_decimal x) = Ret lat
      /\ (do x <- raw_f32 chunk 40; nmea_to_decimal x) = Ret lon
      /\ latitude p = (if Byte.eqb (byte_at chunk 69) "S" then fneg lat else lat)
      /\ longitude p = (if Byte.eqb (byte_at chunk 70) "W" then fneg lon else lon)
      /\ fix_quality p = (if Byte.eqb (byte_at chunk 68) "A" then 1 else 0)%Z
      /\ heading p = Finite 0)
  /\ (forall s68 s69 s70, yields_sample (with_status chunk s68 s69 s70) = true).
Proof.
  intros Hp.
  destruct (Nat.lt_ge_cases (length chunk) 72) as [Hshort|Hlong];
    [rewrite _parse_chunk_short in Hp by assumption; discriminate Hp|].
  split.
  - decoder_cases chunk Hlong. rewrite Hlat, Hlon. cbn [bind].
    rewrite Heq in Hp. clear Heq.
    destruct (feq lat_nmea _ || feq lon_nmea _); [discriminate Hp|].
    destruct (nmea_to_decimal lat_nmea) as [lat|e]; [|discriminate Hp].
    destruct (nmea_to_decimal lon_nmea) as [lon|e]; [|discriminate Hp].
    cbn [bind] in Hp. destruct (forallb fits_c_int _); [|discriminate Hp].
    injection Hp as <-. exists lat, lon. repeat split.
  - intros s68 s69 s70. rewrite yields_sample_with_status by lia.
    unfold yields_sample. now rewrite Hp.
Qed.

(** C6, witness: [good_record] with the status bytes [A], [0xFF], [W]. *)
Lemma status_bytes_applied_odd_status :
  _parse_chunk odd_status_record = Ret (Some odd_status_point)
  /\ (exists lat lon,
        (do x <- raw_f32 odd_status_record 36; nmea_to_decimal x) = Ret lat
        /\ (do x <- raw_f32 odd_status_record 40; nmea_to_decimal x) = Ret lon
        /\ latitude odd_status_point = lat
        /\ longitude odd_status_point = fneg lon
        /\ fix_quality odd_status_point = 1%Z
        /\ heading odd_status_point = Finite 0)
  /\ (forall s68 s69 s70,
        yields_sample (with_status odd_status_record s68 s69 s70) = true).
Proof.
  assert (H : _parse_chunk odd_status_record = Ret (Some odd_status_point))
    by (vm_compute; reflexivity).
  split; [exact H|].
  exact (status_bytes_applied odd_status_record odd_status_point H).
Defined.

Lemma in_speed_range_spec (x : pyfloat) :
  in_speed_range x = true <-> exists q, x = Finite q /\ (0 <= q)%Q /\ (q < 500)%Q.
Proof.
  unfold in_speed_range. split.
  - destruct x as [q|[|]|]; cbn [fle flt float_of_int andb]; try discriminate.
    intros [H1 H2]%andb_true_iff. exists q. split; [reflexivity|]. split.
    + now apply Qle_bool_iff in H1.
    + apply Qnot_le_lt. intros H%Qle_bool_iff. change (inject_Z 500) with 500%Q in H2.
      now rewrite H in H2.
  - intros (q & -> & H1 & H2). cbn [fle flt float_of_int]. apply andb_true_iff. split.
    + now apply Qle_bool_iff.
    + apply negb_true_iff. apply not_true_is_false. intros H%Qle_bool_iff.
      change (inject_Z 500) with 500%Q in H. now apply Qle_not_lt in H.
Qed.

(** C7.  When the decoder accepts a candidate: shorter than 112 bytes, the
    speed of the sample is 0; otherwise the speed is the binary32 word at
    [108:112) when that value lies in [0, 500), and 0 when it does not
    (negative, 500 or more, infinite or NaN). *)
Theorem speed_read_or_zero (chunk : bytes) (p : GPSPoint) :
  _parse_chunk chunk = Ret (Some p) ->
  (length chunk < 112 -> speed p = Finite 0)
  /\ (112 <= length chunk ->
      exists raw, raw_f32 chunk 108 = Ret raw
        /\ ((exists q, raw = Finite q /\ (0 <= q)%Q /\ (q < 500)%Q) -> speed p = raw)
        /\ (~ (exists q, raw = Finite q /\ (0 <= q)%Q /\ (q < 500)%Q) -> speed p = Finite 0)).
Proof.
  intros Hp.
  destruct (Nat.lt_ge_cases (length chunk) 72) as [Hshort|Hlong];
    [rewrite _parse_chunk_short in Hp by assumption; discriminate Hp|].
  decoder_cases chunk Hlong.
  rewrite Heq in Hp. clear Heq.
  destruct (feq lat_nmea _ || feq lon_nmea _); [discriminate Hp|].
  destruct (nmea_to_decimal lat_nmea) as [lat|e]; [|discriminate Hp].
  destruct (nmea_to_decimal lon_nmea) as [lon|e]; [|discriminate Hp].
  cbn [bind] in Hp. destruct (forallb fits_c_int _); [|discriminate Hp].
  injection Hp as <-. cbn [speed]. unfold decoded_speed. split.
  - intros H. now replace (112 <=? length chunk) with false
      by (symmetry; apply Nat.leb_gt; lia).
  - intros H. replace (112 <=? length chunk) with true
      by (symmetry; apply Nat.leb_le; lia).
    destruct (raw_f32_ok chunk 108 ltac:(lia)) as (raw & ->).
    exists raw. split; [reflexivity|].
    destruct (in_speed_range raw) eqn:E.
    + split; [reflexivity|]. intros Hn. now apply in_speed_range_spec in E.
    + split; [|reflexivity]. intros Hq%in_speed_range_spec. congruence.
Qed.

(** C7, witness: the speed word of [good_record] is 45.5, that of
    [month13_record] is 600. *)
Lemma speed_read_or_zero_samples :
  (_parse_chunk good_record = Ret (Some good_point)
   /\ 112 <= length good_record
   /\ speed good_point = f32_of_bits BITS_45_5)
  /\ (_parse_chunk month13_record = Ret (Some month13_point)
      /\ 112 <= length month13_record
      /\ in_speed_range (f32_of_bits BITS_600) = false
      /\ speed month13_point = Finite 0).
Proof.
  assert (Hg : _parse_chunk good_record = Ret (Some good_point))
    by (vm_compute; reflexivity).
  assert (Hm : _parse_chunk month13_record = Ret (Some month13_point))
    by (vm_compute; reflexivity).
  assert (Lg : 112 <= length good_record) by (vm_compute; lia).
  assert (Lm : 112 <= length month13_record) by (vm_compute; lia).
  split.
  - split; [exact Hg|]. split; [exact Lg|].
    destruct (speed_read_or_zero good_record good_point Hg) as (_ & H).
    destruct (H Lg) as (raw & Hraw & Hin & _).
    vm_compute in Hraw. injection Hraw as <-.
    rewrite Hin; [vm_compute; reflexivity|].
    eexists; split; [reflexivity|]. split; vm_compute; congruence.
  - split; [exact Hm|]. split; [exact Lm|]. split; [vm_compute; reflexivity|].
    destruct (speed_read_or_zero month13_record month13_point Hm) as (_ & H).
    destruct (H Lm) as (raw & Hraw & _ & Hout).
    vm_compute in Hraw. injection Hraw as <-.
    apply Hout. intros (q & [= <-] & _ & H500). vm_compute in H500. discriminate.
Defined.

(* ------------------------------------------------------------------ *)
(** ** The data model *)

Lemma is_valid_spec (p : GPSPoint) : is_valid p = true <-> valid_sample p.
Proof.
  unfold is_valid, valid_sample. rewrite !andb_true_iff, Z.ltb_lt. split.
  - intros [[[H1 H2] [H3 H4]] H5].
    destruct (latitude p) as [lat| |]; try discriminate H2;
      [|destruct negative; discriminate].
    destruct (longitude p) as [lon| |]; try discriminate H4;
      [|destruct negative; discriminate].
    cbn [fle float_of_int] in *. apply Qle_bool_iff in H1, H2, H3, H4.
    exists lat, lon. repeat split; assumption.
  - intros (lat & lon & -> & -> & H1 & H2 & H3 & H4 & H5).
    cbn [fle float_of_int]. repeat split; try apply Qle_bool_iff; assumption.
Qed.

Lemma filter_sublist {A : Type} (f : A -> bool) (l : list A) :
  sublist (List.filter f l) l.
Proof.
  induction l as [|x l IH]; simpl; [constructor|].
  destruct (f x); now constructor.
Qed.

(** C10.  A sample built from a latitude and a longitude alone has fix
    quality 1, speed 0, heading 0, no satellites, and neither timestamp nor
    altitude nor accelerometer reading; with the latitude in [-90, 90] and
    the longitude in [-180, 180] it is valid. *)
Theorem default_sample_is_valid (lat lon : Q) :
  (-90 <= lat)%Q -> (lat <= 90)%Q -> (-180 <= lon)%Q -> (lon <= 180)%Q ->
  let p := GPSPoint_of_coordinates (Finite lat) (Finite lon) in
  fix_quality p = 1%Z /\ speed p = Finite 0 /\ heading p = Finite 0
  /\ satellites p = 0%Z /\ timestamp p = None /\ altitude p = None
  /\ gsensor_x p = None /\ gsensor_y p = None /\ gsensor_z p = None
  /\ is_valid p = true.
Proof.
  intros H1 H2 H3 H4 p. repeat (split; [reflexivity|]).
  apply is_valid_spec. exists lat, lon. repeat split; assumption.
Qed.

(** C10, witness: latitude 10, longitude 20. *)
Lemma default_sample_is_valid_10_20 :
  let p := GPSPoint_of_coordinates (Finite 10) (Finite 20) in
  fix_quality p = 1%Z /\ speed p = Finite 0 /\ heading p = Finite 0
  /\ satellites p = 0%Z /\ timestamp p = None /\ altitude p = None
  /\ gsensor_x p = None /\ gsensor_y p = None /\ gsensor_z p = None
  /\ is_valid p = true.
Proof.
  apply (default_sample_is_valid 10 20); vm_compute; discriminate.
Defined.

(** C8.  [filter_valid] on a track of the heap returns a new track.  Its
    points are the valid points of the receiver, in the order of the
    receiver; source file and device information are those of the receiver.
    Every track of the heap, the receiver among them, is what it was before
    the call. *)
Theorem filter_valid_frame (h : gmap loc GPSTrack) (self : loc) (t : GPSTrack) :
  h !! self = Some t ->
  exists h' new kept,
    filter_valid h self = Some (h', new)
    /\ h' !! new = Some (mk_GPSTrack kept (source_file t) (device_info t))
    /\ kept = List.filter is_valid (points t)
    /\ sublist kept (points t)
    /\ (forall p, In p kept <-> In p (points t) /\ valid_sample p)
    /\ h !! new = None
    /\ (forall l, l <> new -> h' !! l = h !! l)
    /\ h' !! self = Some t.
Proof.
  intros Ht. unfold filter_valid. rewrite Ht.
  assert (Hfresh : h !! fresh (dom h) = None)
    by (apply not_elem_of_dom, is_fresh).
  do 3 eexists. split_and!.
  - reflexivity.
  - apply lookup_insert_eq.
  - reflexivity.
  - apply filter_sublist.
  - intros p. rewrite filter_In, is_valid_spec. reflexivity.
  - assumption.
  - intros l Hl. now apply lookup_insert_ne.
  - rewrite lookup_insert_ne; [assumption | congruence].
Qed.

(** C8, witness: a heap with one track of four points, two of them valid. *)
Lemma filter_valid_frame_sample :
  sample_heap !! 1%positive = Some sample_track
  /\ List.filter is_valid (points sample_track) = [good_point; month13_point]
  /\ exists h' new kept,
       filter_valid sample_heap 1%positive = Some (h', new)
       /\ h' !! new
          = Some (mk_GPSTrack kept (source_file sample_track) (device_info sample_track))
       /\ kept = List.filter is_valid (points sample_track)
       /\ sublist kept (points sample_track)
       /\ (forall p, In p kept <-> In p (points sample_track) /\ valid_sample p)
       /\ sample_heap !! new = None
       /\ (forall l, l <> new -> h' !! l = sample_heap !! l)
       /\ h' !! 1%positive = Some sample_track.
Proof.
  assert (H : sample_heap !! 1%positive = Some sample_track)
    by apply lookup_singleton_eq.
  split; [exact H|]. split; [reflexivity|].
  exact (filter_valid_frame sample_heap 1%positive sample_track H).
Defined.

(* ------------------------------------------------------------------ *)
(** ** The scanner, the parser and the format detector *)

Lemma find_first_occurrence (content sub : bytes) (pos : nat) :
  sub <> [] ->
  find content sub 0 = Some pos <-> first_occurrence sub content pos.
Proof.
  intros Hsub. unfold first_occurrence. split.
  - intros (_ & Hocc & Hmin)%find_Some. split; [assumption|].
    intros i Hi. apply Hmin. lia.
  - intros [Hocc Hmin].
    destruct (find_complete content sub 0 pos Hsub ltac:(lia) Hocc) as (p & Hp & Hle).
    destruct (Nat.eq_dec p pos) as [->|Hne]; [assumption|].
    apply find_Some in Hp as (_ & Hp & _). rewrite Hmin in Hp by lia. discriminate.
Qed.

Lemma scan_no_marker (content : bytes) (st : scan_state) :
  (forall i, occurs_at MARKER_FREE_GPS content i = false) ->
  scan content = Some st -> found st = [] /\ yielded st = [].
Proof.
  intros Hno. unfold scan. cbn [parse_loop].
  destruct (find content MARKER_FREE_GPS 0) as [pos|] eqn:F.
  - apply find_Some in F as (_ & Hocc & _). now rewrite Hno in Hocc.
  - change 0 with (offset (mk_scan_state 0 [] [])) in F.
    apply loop_body_break in F. rewrite F. now intros [= <-].
Qed.

(** A candidate whose decoding raises is skipped: the loop goes on from
    [pos + 8] with the points it had. *)
Lemma loop_body_absorbs (content : bytes) (st : scan_state) (pos : nat) (e : exn) :
  find content MARKER_FREE_GPS (offset st) = Some pos ->
  brand_at content pos = true ->
  _parse_chunk (slice content pos (pos + 256)) = Raise e ->
  loop_body content st = Some (mk_scan_state (pos + 8) (found st) (yielded st ++ [pos])).
Proof.
  intros F B R. unfold loop_body. now rewrite F, window_brand, B, R.
Qed.

(** What a call of [parse] comes to, by what [open] and [read] give: an
    [OSError] is turned into [ParseError], a path that [open] refuses leaves
    as the [ValueError] it is, and content that was read gives a track named
    after the file.  Content without the marker gives a track without
    points; an exception raised while decoding a candidate leaves the points
    as they were and moves the cursor on. *)
Lemma parse_outcomes (filepath : string) (f : file) :
  exists r, parse filepath f = Some r
    /\ (r = Raise ParseError <-> f = Unreadable)
    /\ (r = Raise ValueError <-> f = BadPath)
    /\ (forall content, f = Readable content ->
        exists t, r = Ret t /\ source_file t = filepath
          /\ ((forall i, occurs_at MARKER_FREE_GPS content i = false) -> points t = [])
          /\ (forall st pos e,
                find content MARKER_FREE_GPS (offset st) = Some pos ->
                brand_at content pos = true ->
                _parse_chunk (slice content pos (pos + 256)) = Raise e ->
                loop_body content st
                = Some (mk_scan_state (pos + 8) (found st) (yielded st ++ [pos])))).
Proof.
  destruct f as [content| |]; cbn [parse].
  - destruct (parse_loop_terminates content) as (st & Hst). rewrite Hst.
    eexists; split; [reflexivity|]. split; [split; discriminate|].
    split; [split; discriminate|].
    intros c [= <-]. eexists; split; [reflexivity|]. cbn [source_file points].
    split_and!; [reflexivity | | apply loop_body_absorbs].
    intros Hno. now apply (scan_no_marker content st Hno).
  - eexists; split; [reflexivity|]. split; [tauto|].
    split; [split; discriminate|]. discriminate.
  - eexists; split; [reflexivity|]. split; [split; discriminate|].
    split; [tauto|]. discriminate.
Qed.

(** A record whose latitude is NaN, then a good one: the first candidate
    raises and is skipped, the second gives the point. *)
Lemma parse_outcomes_nan_then_record :
  exists t, parse "trip.mp4" (Readable nan_then_record) = Some (Ret t)
    /\ points t = [good_point]
    /\ _parse_chunk (slice nan_then_record 0 256) = Raise ValueError
    /\ loop_body nan_then_record (mk_scan_state 0 [] [])
       = Some (mk_scan_state 8 [] [0]).
Proof.
  eexists. split; [vm_compute; reflexivity|]. split_and!.
  - reflexivity.
  - vm_compute. reflexivity.
  - apply (loop_body_absorbs nan_then_record (mk_scan_state 0 [] []) 0 ValueError);
      vm_compute; reflexivity.
Qed.

Lemma has_null_byte_app (p q : string) :
  has_null_byte (p ++ String "000" q) = true.
Proof.
  unfold has_null_byte. induction p as [|c p IH].
  - reflexivity.
  - change (existsb (Ascii.eqb "000"%char)
              (list_ascii_of_string (String c p ++ String "000" q)))
      with (Ascii.eqb "000"%char c
            || existsb (Ascii.eqb "000"%char)
                 (list_ascii_of_string (p ++ String "000" q))).
    rewrite IH. apply orb_true_r.
Qed.

(** C5.  A path with a null byte in it: [open] refuses it with
    [ValueError] before any I/O, and the handler of [parse], which is for
    [OSError], lets that through.  So on such a path, whatever the file
    system holds, [parse] fails, not with [ParseError], and returns no
    track; [a\0b.mp4] is such a path.  The same handler does turn an
    [OSError] into [ParseError]. *)
Theorem parse_null_byte_path (system : string -> file) (p q : string) :
  let filepath := (p ++ String "000" q)%string in
  open_rb system filepath = BadPath
  /\ parse filepath (open_rb system filepath) = Some (Raise ValueError)
  /\ parse filepath (open_rb system filepath) <> Some (Raise ParseError)
  /\ (forall t, parse filepath (open_rb system filepath) <> Some (Ret t))
  /\ parse null_byte_path (open_rb system null_byte_path) = Some (Raise ValueError)
  /\ parse filepath Unreadable = Some (Raise ParseError).
Proof.
  cbn zeta. unfold open_rb. rewrite has_null_byte_app.
  change (has_null_byte null_byte_path) with true. cbn [parse].
  split_and!; try reflexivity; try discriminate.
Qed.

(** C9.  [can_parse] answers from the first marker of the 10 MiB prefix
    alone: it is true exactly when that first marker carries the brand
    inside the prefix; a file that cannot be read gives false.  A first
    marker with another brand makes it false,
    also for a file with a branded marker further on from which [parse]
    extracts a point; [decoy_then_record] is such a file. *)
Theorem can_parse_first_marker_only :
  (forall content,
      let prefix := read_at_most PREFIX_SIZE content in
      prefix = firstn (N.to_nat PREFIX_SIZE) content
      /\ (can_parse (Readable content) = Ret true
          <-> exists pos, first_occurrence MARKER_FREE_GPS prefix pos
                /\ slice prefix (pos + 12) (pos + 22) = MARKER_YOUQING)
      /\ (forall pos, first_occurrence MARKER_FREE_GPS prefix pos ->
            slice prefix (pos + 12) (pos + 22) <> MARKER_YOUQING ->
            can_parse (Readable content) = Ret false))
  /\ can_parse Unreadable = Ret false
  /\ (first_occurrence MARKER_FREE_GPS (read_at_most PREFIX_SIZE decoy_then_record) 0
      /\ valid_record (read_at_most PREFIX_SIZE decoy_then_record) 32 = true
      /\ can_parse (Readable decoy_then_record) = Ret false
      /\ exists t, parse "trip.mp4" (Readable decoy_then_record) = Some (Ret t)
           /\ points t = [good_point]).
Proof.
  split; [|split].
  - intros content prefix. split; [apply read_at_most_firstn|].
    unfold can_parse. fold prefix. split.
    + split.
      * destruct (find prefix MARKER_FREE_GPS 0) as [pos|] eqn:F; [|discriminate].
        intros [= B%bytes_eqb_eq]. exists pos. split; [|assumption].
        now apply find_first_occurrence in F; [|apply marker_nonempty].
      * intros (pos & F & B).
        apply find_first_occurrence in F; [|apply marker_nonempty].
        rewrite F. f_equal. now apply bytes_eqb_eq.
    + intros pos F B. apply find_first_occurrence in F; [|apply marker_nonempty].
      rewrite F. f_equal. apply not_true_is_false. now intros ?%bytes_eqb_eq.
  - reflexivity.
  - split_and!.
    + split; [vm_compute; reflexivity | intros i Hi; lia].
    + vm_compute. reflexivity.
    + vm_compute. reflexivity.
    + eexists. split; [vm_compute; reflexivity | reflexivity].
Qed.

(** C3.  Whenever [find] reports a match at [pos], one turn of the loop
    moves the cursor to [pos + 8], with the brand or without it; without it
    neither a candidate nor a point is added.  The scan of any buffer ends
    within the fuel [parse] gives it.  A marker that does not carry the brand
    is never handed to the decoder.  Two branded markers at [p < q] are both
    handed to it, [p] before [q], and the offsets handed over are in
    strictly ascending order. *)
Theorem scanner_advances_by_8 (content : bytes) :
  (forall st pos,
      find content MARKER_FREE_GPS (offset st) = Some pos ->
      exists st', loop_body content st = Some st'
        /\ offset st' = pos + 8
        /\ (slice content (pos + 12) (pos + 22) <> MARKER_YOUQING ->
            yielded st' = yielded st /\ found st' = found st))
  /\ (exists st, scan content = Some st)
  /\ (forall st pos,
        scan content = Some st ->
        occurs_at MARKER_FREE_GPS content pos = true ->
        slice content (pos + 12) (pos + 22) <> MARKER_YOUQING ->
        ~ In pos (yielded st))
  /\ (forall st p q,
        scan content = Some st -> p < q ->
        valid_record content p = true -> valid_record content q = true ->
        exists l1 l2 l3, yielded st = l1 ++ p :: l2 ++ q :: l3)
  /\ (forall st, scan content = Some st -> StronglySorted lt (yielded st)).
Proof.
  assert (Hbrand : forall pos, slice content (pos + 12) (pos + 22) <> MARKER_YOUQING ->
                               brand_at content pos = false).
  { intros pos H. apply not_true_is_false. now intros ?%bytes_eqb_eq. }
  split_and!.
  - intros st pos F. destruct (loop_body_match _ _ _ F) as (st' & Hst & Hoff & Hy & Hf).
    exists st'. split_and!; try assumption.
    intros B%Hbrand. rewrite B in Hy. rewrite app_nil_r in Hy. auto.
  - apply parse_loop_terminates.
  - intros st pos Hst _ B%Hbrand. rewrite (scan_yielded _ _ Hst).
    intros [_ V]%filter_In. unfold valid_record in V.
    rewrite B, andb_false_r in V. discriminate.
  - intros st p q Hst Hpq Vp Vq. rewrite (scan_yielded _ _ Hst).
    pose proof (valid_record_bound _ _ Vq) as Hq.
    replace (length content)
      with (p + (1 + ((q - S p) + (1 + (length content - S q))))) by lia.
    rewrite !seq_app, !List.filter_app. cbn [seq List.filter Nat.add].
    replace (p + 1 + (q - S p)) with q by lia. rewrite Vp, Vq.
    do 3 eexists. cbn [app]. reflexivity.
  - intros st Hst. rewrite (scan_yielded _ _ Hst). apply filter_seq_sorted.
Qed.

(** C3, witness: in [two_records] the marker at 0 carries another brand and
    the records at 32 and 288 are both handed to the decoder. *)
Lemma scanner_advances_by_8_two_records :
  exists st, scan two_records = Some st
    /\ ~ In 0 (yielded st)
    /\ (exists l1 l2 l3, yielded st = l1 ++ 32 :: l2 ++ 288 :: l3)
    /\ StronglySorted lt (yielded st).
Proof.
  destruct (scanner_advances_by_8 two_records) as (_ & (st & Hst) & Hno & Htwo & Hs).
  exists st. split; [exact Hst|]. split_and!.
  - apply (Hno st 0 Hst); [vm_compute; reflexivity | vm_compute; discriminate].
  - apply (Htwo st 32 288 Hst); [lia | vm_compute; reflexivity | vm_compute; reflexivity].
  - exact (Hs st Hst).
Defined.

(** C9, witness: the first marker of [decoy_then_record] carries the brand
    [NOVATEKGPS]. *)
Lemma can_parse_first_marker_only_decoy :
  first_occurrence MARKER_FREE_GPS (read_at_most PREFIX_SIZE decoy_then_record) 0
  /\ slice (read_at_most PREFIX_SIZE decoy_then_record) 12 22
     = list_byte_of_string "NOVATEKGPS"
  /\ can_parse (Readable decoy_then_record) = Ret false.
Proof.
  destruct can_parse_first_marker_only as (H & _ & Hfirst & _).
  split; [exact Hfirst|]. split; [vm_compute; reflexivity|].
  destruct (H decoy_then_record) as (_ & _ & Hfalse).
  apply (Hfalse 0 Hfirst). vm_compute. discriminate.
Defined.

(* ------------------------------------------------------------------ *)
(** ** More on the NMEA codec *)

Lemma Qtrunc_opp (q : Q) : Qtrunc (- q) = (- Qtrunc q)%Z.
Proof. destruct q as [n d]. unfold Qtrunc. simpl. apply Z.quot_opp_l. lia. Qed.

Lemma Qtrunc_comp (q r : Q) : q == r -> Qtrunc q = Qtrunc r.
Proof.
  destruct q as [nq dq], r as [nr dr]. unfold Qeq, Qtrunc. simpl. intros E.
  rewrite <- (Z.quot_mul_cancel_r nq (Zpos dq) (Zpos dr)) by lia.
  rewrite <- (Z.quot_mul_cancel_r nr (Zpos dr) (Zpos dq)) by lia.
  rewrite E. f_equal. lia.
Qed.

Lemma nmea_value_opp (q : Q) : nmea_value (- q) == - nmea_value q.
Proof.
  unfold nmea_value.
  assert (E : Qtrunc (- q / inject_Z 100) = (- Qtrunc (q / inject_Z 100))%Z).
  { rewrite <- Qtrunc_opp. apply Qtrunc_comp. change (inject_Z 100) with 100%Q. field. }
  rewrite E, Z.mul_opp_l, !inject_Z_opp. field.
Qed.

(** X1.  [nmea_to_decimal] treats the sign symmetrically: a negative NMEA
    value decodes to the negative of what its absolute value decodes to
    ([int] truncates toward zero), and the function raises on NaN and on the
    infinities only. *)
Theorem nmea_to_decimal_odd (x : pyfloat) :
  match x with
  | Finite q =>
      exists r r', nmea_to_decimal (Finite q) = Ret (Finite r)
        /\ nmea_to_decimal (Finite (- q)) = Ret (Finite r')
        /\ r' == - r
  | Inf _ => nmea_to_decimal x = Raise OverflowError
  | NaN => nmea_to_decimal x = Raise ValueError
  end.
Proof.
  destruct x as [q| |]; try reflexivity.
  exists (nmea_value q), (nmea_value (- q)).
  rewrite !nmea_to_decimal_finite. repeat split. apply nmea_value_opp.
Qed.

Lemma nmea_value_split (v : Q) :
  (0 <= v)%Q ->
  let D := Qtrunc (v / 100) in
  (0 <= D)%Z /\ (inject_Z D * 100 <= v)%Q /\ (v < inject_Z D * 100 + 100)%Q
  /\ nmea_value v == inject_Z D + (v - inject_Z D * 100) / 60.
Proof.
  intros Hv D.
  assert (Ev : v == v / 100 * 100) by field.
  assert (H0 : (0 <= v / 100)%Q).
  { apply Qle_shift_div_l; [reflexivity | lra]. }
  destruct (Qtrunc_bounds _ H0) as (HD & Hlo & Hhi). fold D in HD, Hlo, Hhi.
  split_and!; [assumption | lra | lra |].
  unfold nmea_value. change (inject_Z 100) with 100%Q. fold D.
  rewrite inject_Z_mult. change (inject_Z 100) with 100%Q. field.
Qed.

(** X2.  The other round trip, in the exact arithmetic of this
    development: the rationals stand for the floats of the program, whose
    rounding is not modelled, so the equalities below hold of the program
    up to that rounding only (there 161.25 comes back as
    201.24999999999997, not 201.25).  For an NMEA value [v] from 0 to 18000
    with degrees [D] and minutes [M = v - 100 D], decoding and then encoding
    gives back [v] when [M < 60], and [v + 40] when [M >= 60]: the surplus
    minutes are carried into the degrees. *)
Theorem nmea_decode_then_encode (v : Q) :
  (0 <= v)%Q -> (v <= 18000)%Q ->
  let M := (v - inject_Z (Qtrunc (v / 100)) * 100)%Q in
  exists d r,
    nmea_to_decimal (Finite v) = Ret (Finite d)
    /\ decimal_to_nmea (Finite d) = Ret (Finite r)
    /\ ((M < 60)%Q -> r == v)
    /\ ((60 <= M)%Q -> r == v + 40).
Proof.
  intros Hv _ M. destruct (nmea_value_split v Hv) as (HD & Hlo & Hhi & Hval).
  set (D := Qtrunc (v / 100)) in *.
  exists (nmea_value v). eexists.
  split; [apply nmea_to_decimal_finite|]. split; [reflexivity|].
  assert (Hpos : (0 <= inject_Z D)%Q).
  { change 0%Q with (inject_Z 0). now rewrite <- Zle_Qle. }
  assert (Habs : Qabs (nmea_value v) == nmea_value v).
  { apply Qabs_pos. rewrite Hval.
    assert ((0 <= (v - inject_Z D * 100) / 60)%Q)
      by (apply Qle_shift_div_l; [reflexivity | lra]).
    lra. }
  assert (Hm : (v - inject_Z D * 100) / 60 == (v - inject_Z D * 100) * (1 # 60)) by field.
  split.
  - intros HM. unfold M in HM.
    assert (E : Qtrunc (Qabs (nmea_value v)) = D).
    { apply Qtrunc_unique; [assumption | |]; rewrite Habs, Hval, Hm; lra. }
    rewrite E, inject_Z_mult, Habs, Hval. change (inject_Z 100) with 100%Q.
    change (inject_Z 60) with 60%Q. field.
  - intros HM. unfold M in HM.
    assert (E : Qtrunc (Qabs (nmea_value v)) = (D + 1)%Z).
    { apply Qtrunc_unique; [lia | |]; rewrite inject_Z_plus, Habs, Hval, Hm;
        change (inject_Z 1) with 1%Q; lra. }
    rewrite E, inject_Z_mult, inject_Z_plus, Habs, Hval.
    change (inject_Z 100) with 100%Q. change (inject_Z 60) with 60%Q.
    change (inject_Z 1) with 1%Q. field.
Qed.

(** X2, witness: 3840.7339 has 40.7339 minutes, 3875 has 75. *)
Lemma nmea_decode_then_encode_samples :
  (exists d r,
      nmea_to_decimal (Finite (38407339 # 10000)) = Ret (Finite d)
      /\ decimal_to_nmea (Finite d) = Ret (Finite r)
      /\ r == 38407339 # 10000)
  /\ (exists d r,
        nmea_to_decimal (Finite 3875) = Ret (Finite d)
        /\ decimal_to_nmea (Finite d) = Ret (Finite r)
        /\ r == 3915).
Proof.
  split.
  - destruct (nmea_decode_then_encode (38407339 # 10000)) as (d & r & H1 & H2 & H3 & _);
      [vm_compute; discriminate | vm_compute; discriminate|].
    exists d, r. split_and!; [exact H1 | exact H2 |].
    apply H3. vm_compute. reflexivity.
  - destruct (nmea_decode_then_encode 3875) as (d & r & H1 & H2 & _ & H3);
      [vm_compute; discriminate | vm_compute; discriminate|].
    exists d, r. split_and!; [exact H1 | exact H2 |].
    rewrite H3; [reflexivity | vm_compute; discriminate].
Defined.

(* ------------------------------------------------------------------ *)
(** ** More on the scan and the decoder *)

(** The branded markers from a cursor on, split at the match [find] reports. *)
Lemma branded_markers_step (content : bytes) (start pos : nat) :
  find content MARKER_FREE_GPS start = Some pos ->
  List.filter (valid_record content) (seq start (length content - start))
  = (if brand_at content pos then [pos] else [])
    ++ List.filter (valid_record content) (seq (pos + 8) (length content - (pos + 8))).
Proof.
  intros (Hle & Hocc & Hmin)%find_Some.
  pose proof (occurs_at_bound _ _ _ marker_nonempty Hocc) as Hb. simpl in Hb.
  replace (length content - start)
    with ((pos - start) + (1 + (7 + (length content - (pos + 8))))) by lia.
  rewrite !seq_app, !List.filter_app.
  replace (start + (pos - start)) with pos by lia.
  rewrite (filter_seq_none _ start).
  2:{ intros k Hk. unfold valid_record. rewrite Hmin by lia. reflexivity. }
  rewrite (filter_seq_none _ (pos + 1)).
  2:{ intros k Hk. unfold valid_record.
      replace k with (pos + (k - pos)) by lia.
      rewrite marker_no_overlap by (assumption || lia). reflexivity. }
  replace (pos + 1 + 7) with (pos + 8) by lia.
  cbn [seq List.filter app]. unfold valid_record at 1. rewrite Hocc.
  now destruct (brand_at content pos).
Qed.

Lemma loop_body_found (content : bytes) (st : scan_state) (pos : nat) :
  find content MARKER_FREE_GPS (offset st) = Some pos ->
  exists st', loop_body content st = Some st'
    /\ offset st' = pos + 8
    /\ found st' = found st
         ++ (if brand_at content pos then samples_at content pos else []).
Proof.
  intros F. unfold loop_body, samples_at. rewrite F, window_brand.
  destruct (brand_at content pos); cbn [negb]; eexists; (split; [reflexivity|]);
    cbn [offset found]; (split; [reflexivity|]).
  - destruct (_parse_chunk _) as [[p|]|e]; cbn [bind except_Exception];
      now rewrite ?app_nil_r.
  - now rewrite app_nil_r.
Qed.

Lemma parse_loop_found (content : bytes) (fuel : nat) (st st' : scan_state) :
  parse_loop fuel content st = Some st' ->
  found st' = found st
    ++ flat_map (samples_at content)
         (List.filter (valid_record content)
            (seq (offset st) (length content - offset st))).
Proof.
  revert st; induction fuel as [|fuel IH]; intros st; cbn [parse_loop]; [discriminate|].
  destruct (find content MARKER_FREE_GPS (offset st)) as [pos|] eqn:F.
  - destruct (loop_body_found _ _ _ F) as (st1 & -> & Hoff & Hf).
    intros ->%IH. rewrite Hf, Hoff, <- app_assoc. f_equal.
    rewrite (branded_markers_step _ _ _ F), flat_map_app.
    destruct (brand_at content pos); cbn [flat_map app]; now rewrite ?app_nil_r.
  - pose proof F as B. apply loop_body_break in B. rewrite B. intros [= <-].
    rewrite filter_seq_none; [now rewrite app_nil_r|].
    intros k Hk. unfold valid_record.
    rewrite (find_None _ _ _ marker_nonempty F) by lia. reflexivity.
Qed.

Lemma flat_map_samples_length (content : bytes) (l : list nat) :
  length (flat_map (samples_at content) l) <= length l.
Proof.
  induction l as [|pos l IH]; cbn [flat_map]; [reflexivity|].
  rewrite length_app. unfold samples_at at 1.
  destruct (_parse_chunk _) as [[p|]|e]; simpl; lia.
Qed.

Lemma parse_Ret_inv (filepath : string) (content : bytes) (t : GPSTrack) :
  parse filepath (Readable content) = Some (Ret t) ->
  t = mk_GPSTrack (flat_map (samples_at content) (branded_markers content)) filepath
                  (Some {[ "format"%string := "YOUQINGGPS"%string ]}).
Proof.
  cbn [parse]. destruct (scan content) as [st|] eqn:Hst; [|discriminate].
  intros [= <-]. apply parse_loop_found in Hst. cbn [found offset app] in Hst.
  rewrite Nat.sub_0_r in Hst. unfold branded_markers. now rewrite Hst.
Qed.


(** X3.  On readable content [parse] returns the track whose points are,
    in ascending order of offset, the samples decoded from the 256-byte
    windows at the branded markers of the whole buffer: one point for each
    window the decoder accepts, none for a window it rejects or raises on.
    The track carries the path given and the format tag. *)
Theorem parse_collects_branded_markers (filepath : string) (content : bytes) :
  exists t,
    parse filepath (Readable content) = Some (Ret t)
    /\ points t = flat_map (samples_at content) (branded_markers content)
    /\ (forall pos, In pos (branded_markers content)
                    <-> valid_record content pos = true)
    /\ StronglySorted lt (branded_markers content)
    /\ length (points t) <= length (branded_markers content)
    /\ source_file t = filepath
    /\ device_info t = Some {[ "format"%string := "YOUQINGGPS"%string ]}.
Proof.
  cbn [parse]. destruct (parse_loop_terminates content) as (st & Hst). rewrite Hst.
  eexists; split; [reflexivity|]. cbn [points source_file device_info].
  assert (Hf : found st = flat_map (samples_at content) (branded_markers content)).
  { apply parse_loop_found in Hst. cbn [found offset app] in Hst.
    now rewrite Nat.sub_0_r in Hst. }
  split_and!; try reflexivity.
  - exact Hf.
  - intros pos. unfold branded_markers. rewrite filter_In, in_seq. split.
    + now intros [_ H].
    + intros H. split; [|assumption]. apply valid_record_bound in H. lia.
  - apply filter_seq_sorted.
  - rewrite Hf. apply flat_map_samples_length.
Qed.

Lemma decoded_speed_range (chunk : bytes) :
  exists v, decoded_speed chunk = Finite v /\ (0 <= v)%Q /\ (v < 500)%Q.
Proof.
  unfold decoded_speed.
  destruct (112 <=? length chunk); [|exists 0%Q; repeat split; lra].
  destruct (raw_f32 chunk 108) as [raw|e]; [|exists 0%Q; repeat split; lra].
  destruct (in_speed_range raw) eqn:E; [|exists 0%Q; repeat split; lra].
  apply in_speed_range_spec in E as (q & -> & H1 & H2). now exists q.
Qed.

Lemma timestamp_of_Some (year hour minute day month second : Z) (t : datetime) :
  (0 <= year)%Z ->
  timestamp_of year hour minute day month second = Some t ->
  real_datetime (dt_year t) (dt_month t) (dt_day t)
                (dt_hour t) (dt_minute t) (dt_second t) = true
  /\ (100 <= dt_year t)%Z.
Proof.
  intros Hy. unfold timestamp_of.
  destruct (real_datetime _ _ _ _ _ _) eqn:E; [|discriminate].
  intros [= <-]. cbn [dt_year dt_month dt_day dt_hour dt_minute dt_second].
  split; [assumption|]. unfold year_full_of. destruct (Z.ltb_spec year 100); lia.
Qed.

Lemma _parse_chunk_shape (chunk : bytes) (p : GPSPoint) :
  _parse_chunk chunk = Ret (Some p) -> decoded_shape p.
Proof.
  intros Hp.
  destruct (Nat.lt_ge_cases (length chunk) 72) as [Hshort|Hlong];
    [rewrite _parse_chunk_short in Hp by assumption; discriminate Hp|].
  decoder_cases chunk Hlong.
  destruct (raw_u32_ok chunk 44 ltac:(lia)) as (y & Hy & Hy0).
  rewrite Hyear in Hy. injection Hy as <-.
  rewrite Heq in Hp. clear Heq.
  destruct (feq lat_nmea _ || feq lon_nmea _); [discriminate Hp|].
  destruct (nmea_to_decimal lat_nmea) as [lat|e] eqn:Elat; [|discriminate Hp].
  destruct (nmea_to_decimal lon_nmea) as [lon|e] eqn:Elon; [|discriminate Hp].
  cbn [bind] in Hp. destruct (forallb fits_c_int _); [|discriminate Hp].
  injection Hp as <-.
  apply nmea_to_decimal_Ret in Elat as (qlat & _ & ->).
  apply nmea_to_decimal_Ret in Elon as (qlon & _ & ->).
  destruct (decoded_speed_range chunk) as (v & Hv & Hv0 & Hv500).
  unfold decoded_shape.
  cbn [latitude longitude speed heading altitude satellites gsensor_x gsensor_y
       gsensor_z fix_quality timestamp].
  split_and!; try reflexivity.
  - unfold negated_on.
    destruct (Byte.eqb (byte_at chunk 69) _), (Byte.eqb (byte_at chunk 70) _);
      cbn [fneg]; do 3 eexists; (split_and!; [reflexivity | reflexivity | eassumption | assumption | assumption]).
  - destruct (Byte.eqb _ _); [now right | now left].
  - intros t Ht. now apply (timestamp_of_Some year hour minute day month second).
Qed.

Lemma samples_at_shape (content : bytes) (l : list nat) (p : GPSPoint) :
  In p (flat_map (samples_at content) l) -> decoded_shape p.
Proof.
  intros (pos & _ & Hp)%in_flat_map. unfold samples_at in Hp.
  destruct (_parse_chunk _) as [[q|]|e] eqn:E; try contradiction.
  destruct Hp as [<-|[]]. now apply (_parse_chunk_shape _ _ E).
Qed.

(** X4.  Every point of a track that [parse] returns has finite latitude
    and longitude, a finite speed in [0, 500), heading 0, no altitude, no
    satellites, no accelerometer reading and fix quality 0 or 1; its
    timestamp, when present, is a real calendar date and time whose year is
    at least 100. *)
Theorem parsed_points_shape (filepath : string) (content : bytes)
    (t : GPSTrack) (p : GPSPoint) :
  parse filepath (Readable content) = Some (Ret t) ->
  In p (points t) ->
  decoded_shape p.
Proof.
  cbn [parse]. destruct (scan content) as [st|] eqn:Hst; [|discriminate].
  intros [= <-]. cbn [points]. apply parse_loop_found in Hst.
  cbn [found offset app] in Hst. rewrite Hst. apply samples_at_shape.
Qed.

(** X4, witness: the point read from [decoy_then_record]. *)
Lemma parsed_points_shape_decoy :
  parse "trip.mp4" (Readable decoy_then_record)
  = Some (Ret (mk_GPSTrack [good_point] "trip.mp4"
                 (Some {[ "format"%string := "YOUQINGGPS"%string ]})))
  /\ decoded_shape good_point.
Proof.
  assert (H : parse "trip.mp4" (Readable decoy_then_record)
              = Some (Ret (mk_GPSTrack [good_point] "trip.mp4"
                             (Some {[ "format"%string := "YOUQINGGPS"%string ]}))))
    by (vm_compute; reflexivity).
  split; [exact H|].
  apply (parsed_points_shape _ _ _ good_point H). now left.
Defined.

Lemma slice_firstn (b : bytes) (n i j : nat) :
  j <= n -> slice (firstn n b) i j = slice b i j.
Proof.
  intros H. unfold slice. rewrite skipn_firstn_comm, firstn_firstn.
  f_equal. lia.
Qed.

Lemma _parse_chunk_firstn_112 (chunk : bytes) :
  112 <= length chunk -> _parse_chunk (firstn 112 chunk) = _parse_chunk chunk.
Proof.
  intros H. unfold _parse_chunk.
  rewrite length_firstn. replace (Nat.min 112 (length chunk)) with 112 by lia.
  rewrite !slice_firstn by lia.
  replace (length chunk <? 72) with false by (symmetry; apply Nat.ltb_ge; lia).
  replace (112 <=? length chunk) with true by (symmetry; apply Nat.leb_le; lia).
  reflexivity.
Qed.

(** X5.  The decoder looks at the first 112 bytes of a candidate only: two
    candidates of at least 112 bytes that agree on those bytes decode alike,
    whatever follows and whatever their lengths. *)
Theorem decoder_reads_112_bytes (chunk chunk' : bytes) :
  112 <= length chunk -> 112 <= length chunk' ->
  firstn 112 chunk = firstn 112 chunk' ->
  _parse_chunk chunk = _parse_chunk chunk'.
Proof.
  intros H H' E.
  rewrite <- (_parse_chunk_firstn_112 chunk), <- (_parse_chunk_firstn_112 chunk') by assumption.
  now rewrite E.
Qed.

(** X5, witness: [good_record] cut after 112 bytes and followed by other
    bytes. *)
Lemma decoder_reads_112_bytes_cut :
  _parse_chunk (firstn 112 good_record ++ [xff; xff; xff])
  = _parse_chunk good_record.
Proof.
  apply decoder_reads_112_bytes; vm_compute; reflexivity || lia.
Defined.

(* ------------------------------------------------------------------ *)
(** ** The registry *)

Section RegistryFacts.

Variable disk : string -> file.
Variable Path_str : string -> string.

Lemma first_accepting_Some (registry : list BaseParser) (path : string)
    (parser : BaseParser) :
  first_accepting disk registry path = Ret (Some parser)
  <-> exists before after,
        registry = before ++ parser :: after
        /\ bp_can_parse parser (open_rb disk path) = Ret true
        /\ Forall (fun q => bp_can_parse q (open_rb disk path) = Ret false) before.
Proof.
  induction registry as [|q registry IH]; cbn [first_accepting].
  - split; [discriminate | intros ([|? ?] & ? & [=] & _)].
  - destruct (bp_can_parse q (open_rb disk path)) as [[|]|e] eqn:E; cbn [bind].
    + split.
      * intros [= <-]. exists [], registry. now repeat split.
      * intros ([|q' before] & after & Hreg & Hcan & Hbefore).
        -- now injection Hreg as <- _.
        -- injection Hreg as <- _. inversion Hbefore; congruence.
    + rewrite IH. split.
      * intros (before & after & -> & Hcan & Hbefore).
        exists (q :: before), after. repeat split; [assumption|]. now constructor.
      * intros ([|q' before] & after & Hreg & Hcan & Hbefore).
        -- injection Hreg as <- _. congruence.
        -- injection Hreg as <- ->. exists before, after.
           repeat split; [assumption|]. now inversion Hbefore.
    + split; [discriminate|].
      intros ([|q' before] & after & Hreg & Hcan & Hbefore).
      * injection Hreg as <- _. congruence.
      * injection Hreg as <- _. inversion Hbefore; congruence.
Qed.

Lemma first_accepting_None (registry : list BaseParser) (path : string) :
  first_accepting disk registry path = Ret None
  <-> Forall (fun q => bp_can_parse q (open_rb disk path) = Ret false) registry.
Proof.
  induction registry as [|q registry IH]; cbn [first_accepting].
  - split; [constructor | reflexivity].
  - destruct (bp_can_parse q (open_rb disk path)) as [[|]|e] eqn:E; cbn [bind].
    + split; [discriminate | intros H; inversion H; congruence].
    + rewrite IH. split; [now constructor | now intros H; inversion H].
    + split; [discriminate | intros H; inversion H; congruence].
Qed.

Lemma first_accepting_Raise (registry : list BaseParser) (path : string) (e : exn) :
  first_accepting disk registry path = Raise e
  <-> exists before parser after,
        registry = before ++ parser :: after
        /\ bp_can_parse parser (open_rb disk path) = Raise e
        /\ Forall (fun q => bp_can_parse q (open_rb disk path) = Ret false) before.
Proof.
  induction registry as [|q registry IH]; cbn [first_accepting].
  - split; [discriminate | intros ([|? ?] & ? & ? & [=] & _)].
  - destruct (bp_can_parse q (open_rb disk path)) as [[|]|e'] eqn:E; cbn [bind].
    + split; [discriminate|].
      intros ([|q' before] & parser & after & Hreg & Hcan & Hbefore).
      * injection Hreg as <- _. congruence.
      * injection Hreg as <- _. inversion Hbefore; congruence.
    + rewrite IH. split.
      * intros (before & parser & after & -> & Hcan & Hbefore).
        exists (q :: before), parser, after. repeat split; [assumption|].
        now constructor.
      * intros ([|q' before] & parser & after & Hreg & Hcan & Hbefore).
        -- injection Hreg as <- _. congruence.
        -- injection Hreg as <- ->. exists before, parser, after.
           repeat split; [assumption|]. now inversion Hbefore.
    + split.
      * intros [= ->]. exists [], q, registry. now repeat split.
      * intros ([|q' before] & parser & after & Hreg & Hcan & Hbefore).
        -- injection Hreg as <- _. congruence.
        -- injection Hreg as <- _. inversion Hbefore; congruence.
Qed.

(** X6.  [get_parser] asks the parsers of the registry in order.  It
    hands back the first one whose [can_parse] returns true, all before it
    having returned false; it raises [UnsupportedFormatError] exactly when
    every [can_parse] returns false; and an exception that a [can_parse]
    raises, all before it having returned false, leaves [get_parser] as it
    is: the parsers after it are not asked. *)
Theorem get_parser_first_match (registry : list BaseParser) (filepath : string) :
  let f := open_rb disk (Path_str filepath) in
  (forall parser,
      get_parser disk Path_str registry filepath = Returned parser
      <-> exists before after,
            registry = before ++ parser :: after
            /\ bp_can_parse parser f = Ret true
            /\ Forall (fun q => bp_can_parse q f = Ret false) before)
  /\ (get_parser disk Path_str registry filepath = Unsupported
      <-> Forall (fun q => bp_can_parse q f = Ret false) registry)
  /\ (forall e,
        get_parser disk Path_str registry filepath = Raised e
        <-> exists before parser after,
              registry = before ++ parser :: after
              /\ bp_can_parse parser f = Raise e
              /\ Forall (fun q => bp_can_parse q f = Ret false) before).
Proof.
  cbn zeta. unfold get_parser. split_and!.
  - intros parser. rewrite <- first_accepting_Some.
    destruct (first_accepting _ _ _) as [[p|]|e]; split; congruence.
  - rewrite <- first_accepting_None.
    destruct (first_accepting _ _ _) as [[p|]|e]; split; congruence.
  - intros e. rewrite <- first_accepting_Raise.
    destruct (first_accepting _ _ _) as [[p|]|e']; split; congruence.
Qed.

End RegistryFacts.








(* ------------------------------------------------------------------ *)
(** ** The accessors of a track *)

Lemma fle_refl (x : pyfloat) : is_nan x = false -> fle x x = true.
Proof.
  destruct x as [q|[|]|]; cbn; try discriminate; try reflexivity.
  intros _. apply Qle_bool_iff. apply Qle_refl.
Qed.

Lemma flt_fle (x y : pyfloat) : flt x y = true -> fle x y = true.
Proof.
  destruct x as [a|[|]|], y as [b|[|]|]; cbn; try discriminate; try reflexivity.
  intros H%negb_true_iff. apply Qle_bool_iff. apply Qlt_le_weak. apply Qnot_le_lt.
  intros Hle%Qle_bool_iff. congruence.
Qed.

Lemma not_flt_fle (x y : pyfloat) :
  is_nan x = false -> is_nan y = false -> flt x y = false -> fle y x = true.
Proof.
  destruct x as [a|[|]|], y as [b|[|]|]; cbn; try discriminate; try reflexivity.
  intros _ _ H%negb_false_iff. assumption.
Qed.

Lemma fle_trans (x y z : pyfloat) : fle x y = true -> fle y z = true -> fle x z = true.
Proof.
  destruct x as [a|[|]|], y as [b|[|]|], z as [c|[|]|]; cbn;
    try discriminate; try reflexivity.
  intros H1%Qle_bool_iff H2%Qle_bool_iff. apply Qle_bool_iff.
  now apply Qle_trans with b.
Qed.

Section Extremum.

(** [better item best]: the item replaces the best seen so far. *)
Variable better : pyfloat -> pyfloat -> bool.
Variable le : pyfloat -> pyfloat -> bool.
Hypothesis le_refl : forall x, is_nan x = false -> le x x = true.
Hypothesis le_trans : forall x y z, le x y = true -> le y z = true -> le x z = true.
Hypothesis better_le : forall x y, better x y = true -> le x y = true.
Hypothesis not_better_le :
  forall x y, is_nan x = false -> is_nan y = false -> better x y = false -> le y x = true.
Hypothesis better_nan : forall x, better x NaN = false.
Hypothesis nan_better : forall x, better NaN x = false.

Let pick (best item : pyfloat) : pyfloat := if better item best then item else best.

Lemma fold_pick_In (rest : list pyfloat) (x : pyfloat) :
  In (fold_left pick rest x) (x :: rest).
Proof.
  revert x; induction rest as [|y rest IH]; intros x; cbn [fold_left]; [now left|].
  change (pick x y) with (if better y x then y else x). destruct (better y x).
  - right. apply IH.
  - destruct (IH x) as [H|H]; [now left | right; now right].
Qed.

Lemma fold_pick_le_start (rest : list pyfloat) (x : pyfloat) :
  is_nan x = false -> le (fold_left pick rest x) x = true.
Proof.
  revert x; induction rest as [|y rest IH]; intros x Hx; cbn [fold_left];
    [now apply le_refl|].
  change (pick x y) with (if better y x then y else x).
  destruct (better y x) eqn:E; [|now apply IH].
  apply le_trans with y; [|now apply better_le].
  apply IH. destruct y; try reflexivity. now rewrite nan_better in E.
Qed.

Lemma fold_pick_least (rest : list pyfloat) (x : pyfloat) :
  Forall (fun y => is_nan y = false) (x :: rest) ->
  Forall (fun y => le (fold_left pick rest x) y = true) (x :: rest).
Proof.
  revert x; induction rest as [|y rest IH]; intros x Hall; cbn [fold_left].
  - constructor; [|constructor]. apply le_refl. now inversion Hall.
  - inversion Hall as [|? ? Hx Hrest]; subst. inversion Hrest as [|? ? Hy Hrest']; subst.
    change (pick x y) with (if better y x then y else x). destruct (better y x) eqn:E.
    + specialize (IH y Hrest). inversion IH as [|? ? H1 H2]; subst.
      constructor; [|now constructor].
      apply le_trans with y; [assumption | now apply better_le].
    + assert (Hx' : Forall (fun z => is_nan z = false) (x :: rest)) by now constructor.
      specialize (IH x Hx'). inversion IH as [|? ? H1 H2]; subst.
      constructor; [assumption|]. constructor; [|assumption].
      apply le_trans with x; [assumption | now apply not_better_le].
Qed.

Lemma fold_pick_nan (rest : list pyfloat) (x : pyfloat) :
  is_nan (fold_left pick rest x) = is_nan x.
Proof.
  revert x; induction rest as [|y rest IH]; intros x; cbn [fold_left]; [reflexivity|].
  rewrite IH. unfold pick. destruct (better y x) eqn:E; [|reflexivity].
  destruct y; [destruct x; try reflexivity; now rewrite better_nan in E
              |destruct x; try reflexivity; now rewrite better_nan in E
              |now rewrite nan_better in E].
Qed.

End Extremum.

Lemma flt_nan_r (x : pyfloat) : flt x NaN = false.
Proof. now destruct x as [q|[|]|]. Qed.

Lemma flt_nan_l (x : pyfloat) : flt NaN x = false.
Proof. reflexivity. Qed.

Lemma py_min_spec (x : pyfloat) (rest : list pyfloat) :
  exists m, py_min (x :: rest) = Ret m
    /\ In m (x :: rest)
    /\ is_nan m = is_nan x
    /\ (Forall (fun y => is_nan y = false) (x :: rest) ->
        Forall (fun y => fle m y = true) (x :: rest)).
Proof.
  eexists; split; [reflexivity|]. split_and!.
  - apply (fold_pick_In flt).
  - apply (fold_pick_nan flt); [apply flt_nan_r | apply flt_nan_l].
  - intros H. apply (fold_pick_least flt fle);
      [apply fle_refl | apply fle_trans | apply flt_fle | apply not_flt_fle | exact H].
Qed.

Lemma py_max_spec (x : pyfloat) (rest : list pyfloat) :
  exists m, py_max (x :: rest) = Ret m
    /\ In m (x :: rest)
    /\ is_nan m = is_nan x
    /\ (Forall (fun y => is_nan y = false) (x :: rest) ->
        Forall (fun y => fle y m = true) (x :: rest)).
Proof.
  eexists; split; [reflexivity|]. split_and!.
  - apply (fold_pick_In (fun item best => flt best item)).
  - apply (fold_pick_nan (fun item best => flt best item));
      [intros y; apply flt_nan_l | intros y; apply flt_nan_r].
  - intros H. apply (fold_pick_least (fun item best => flt best item) fge);
      unfold fge; [| | | |exact H].
    + apply fle_refl.
    + intros a b c H1 H2. now apply fle_trans with b.
    + intros a b. apply flt_fle.
    + intros a b Ha Hb. now apply not_flt_fle.
Qed.

Lemma Forall_map_iff {A B : Type} (f : A -> B) (P : B -> Prop) (l : list A) :
  Forall P (map f l) <-> Forall (fun a => P (f a)) l.
Proof.
  induction l as [|a l IH]; cbn [map].
  - split; constructor.
  - split; intros H; inversion H; subst; constructor; tauto.
Qed.

Lemma bounds_nonempty (t : GPSTrack) (p0 : GPSPoint) (rest : list GPSPoint) :
  points t = p0 :: rest ->
  exists min_lat min_lon max_lat max_lon,
    bounds t = Ret (Some (min_lat, min_lon, max_lat, max_lon))
    /\ py_min (map latitude (points t)) = Ret min_lat
    /\ py_min (map longitude (points t)) = Ret min_lon
    /\ py_max (map latitude (points t)) = Ret max_lat
    /\ py_max (map longitude (points t)) = Ret max_lon.
Proof.
  intros E. unfold bounds. rewrite E. cbn [map].
  destruct (py_min_spec (latitude p0) (map latitude rest)) as (a & Ha & _).
  destruct (py_min_spec (longitude p0) (map longitude rest)) as (b & Hb & _).
  destruct (py_max_spec (latitude p0) (map latitude rest)) as (c & Hc & _).
  destruct (py_max_spec (longitude p0) (map longitude rest)) as (d & Hd & _).
  rewrite Ha, Hb, Hc, Hd. cbn [bind]. now exists a, b, c, d.
Qed.

Lemma bounds_extremes (t : GPSTrack) (p0 : GPSPoint) (rest : list GPSPoint) :
  points t = p0 :: rest ->
  exists min_lat min_lon max_lat max_lon,
    bounds t = Ret (Some (min_lat, min_lon, max_lat, max_lon))
    /\ In min_lat (map latitude (points t)) /\ In max_lat (map latitude (points t))
    /\ In min_lon (map longitude (points t)) /\ In max_lon (map longitude (points t))
    /\ (Forall (fun p => is_nan (latitude p) = false) (points t) ->
        Forall (fun p => fle min_lat (latitude p) = true
                         /\ fle (latitude p) max_lat = true) (points t))
    /\ (Forall (fun p => is_nan (longitude p) = false) (points t) ->
        Forall (fun p => fle min_lon (longitude p) = true
                         /\ fle (longitude p) max_lon = true) (points t)).
Proof.
  intros E.
  destruct (bounds_nonempty t p0 rest E) as (a & b & c & d & Hb & Ha & Hbb & Hc & Hd).
  rewrite E in Ha, Hbb, Hc, Hd |- *. cbn [map] in *.
  destruct (py_min_spec (latitude p0) (map latitude rest)) as (a' & Ha' & Ia & _ & La).
  destruct (py_min_spec (longitude p0) (map longitude rest)) as (b' & Hb' & Ib & _ & Lb).
  destruct (py_max_spec (latitude p0) (map latitude rest)) as (c' & Hc' & Ic & _ & Lc).
  destruct (py_max_spec (longitude p0) (map longitude rest)) as (d' & Hd' & Id & _ & Ld).
  rewrite Ha in Ha'; rewrite Hbb in Hb'; rewrite Hc in Hc'; rewrite Hd in Hd'.
  injection Ha' as <-; injection Hb' as <-; injection Hc' as <-; injection Hd' as <-.
  exists a, b, c, d. split_and!; try assumption.
  + intros H.
    assert (H' : Forall (fun y => is_nan y = false) (latitude p0 :: map latitude rest))
      by (apply (Forall_map_iff latitude (fun y => is_nan y = false) (p0 :: rest)); exact H).
    specialize (La H'). specialize (Lc H').
    apply (Forall_map_iff latitude (fun y => fle a y = true) (p0 :: rest)) in La.
    apply (Forall_map_iff latitude (fun y => fle y c = true) (p0 :: rest)) in Lc.
    rewrite List.Forall_forall in La, Lc. apply List.Forall_forall.
    intros p Hp. split; [now apply La | now apply Lc].
  + intros H.
    assert (H' : Forall (fun y => is_nan y = false) (longitude p0 :: map longitude rest))
      by (apply (Forall_map_iff longitude (fun y => is_nan y = false) (p0 :: rest)); exact H).
    specialize (Lb H'). specialize (Ld H').
    apply (Forall_map_iff longitude (fun y => fle b y = true) (p0 :: rest)) in Lb.
    apply (Forall_map_iff longitude (fun y => fle y d = true) (p0 :: rest)) in Ld.
    rewrite List.Forall_forall in Lb, Ld. apply List.Forall_forall.
    intros p Hp. split; [now apply Lb | now apply Ld].
Qed.

(** X8.  [bounds] is [None] exactly for a track without points and never
    raises.  For a track with points it gives four numbers, each the
    latitude (longitude) of one of the points; when no latitude is NaN every
    latitude lies between [min_lat] and [max_lat], and when no longitude is
    NaN every longitude lies between [min_lon] and [max_lon]. *)
Theorem bounds_enclose_points (t : GPSTrack) :
  (bounds t = Ret None <-> points t = [])
  /\ (points t <> [] ->
      exists min_lat min_lon max_lat max_lon,
        bounds t = Ret (Some (min_lat, min_lon, max_lat, max_lon))
        /\ In min_lat (map latitude (points t)) /\ In max_lat (map latitude (points t))
        /\ In min_lon (map longitude (points t)) /\ In max_lon (map longitude (points t))
        /\ (Forall (fun p => is_nan (latitude p) = false) (points t) ->
            Forall (fun p => fle min_lat (latitude p) = true
                             /\ fle (latitude p) max_lat = true) (points t))
        /\ (Forall (fun p => is_nan (longitude p) = false) (points t) ->
            Forall (fun p => fle min_lon (longitude p) = true
                             /\ fle (longitude p) max_lon = true) (points t))).
Proof.
  split.
  - destruct (points t) as [|p0 rest] eqn:E.
    + unfold bounds. rewrite E. split; reflexivity.
    + destruct (bounds_nonempty t p0 rest E) as (a & b & c & d & -> & _).
      split; discriminate.
  - destruct (points t) as [|p0 rest] eqn:E; [congruence|]. intros _.
    rewrite <- E. exact (bounds_extremes t p0 rest E).
Qed.

(** X8, witness: the track with four sample points. *)
Lemma bounds_enclose_points_sample :
  points sample_track <> []
  /\ exists min_lat min_lon max_lat max_lon,
       bounds sample_track = Ret (Some (min_lat, min_lon, max_lat, max_lon))
       /\ In min_lat (map latitude (points sample_track))
       /\ In max_lat (map latitude (points sample_track))
       /\ In min_lon (map longitude (points sample_track))
       /\ In max_lon (map longitude (points sample_track))
       /\ (Forall (fun p => is_nan (latitude p) = false) (points sample_track) ->
           Forall (fun p => fle min_lat (latitude p) = true
                            /\ fle (latitude p) max_lat = true) (points sample_track))
       /\ (Forall (fun p => is_nan (longitude p) = false) (points sample_track) ->
           Forall (fun p => fle min_lon (longitude p) = true
                            /\ fle (longitude p) max_lon = true) (points sample_track)).
Proof.
  assert (H : points sample_track <> []) by discriminate.
  split; [exact H|].
  destruct (bounds_enclose_points sample_track) as (_ & Hb). exact (Hb H).
Defined.

(** X9.  A NaN matters to [bounds] only in the first point: [min_lat] and
    [max_lat] are NaN exactly when the latitude of the first point is NaN,
    [min_lon] and [max_lon] exactly when its longitude is, whatever the
    other points hold. *)
Theorem bounds_nan_first_point (t : GPSTrack) (p0 : GPSPoint) (rest : list GPSPoint) :
  points t = p0 :: rest ->
  exists min_lat min_lon max_lat max_lon,
    bounds t = Ret (Some (min_lat, min_lon, max_lat, max_lon))
    /\ is_nan min_lat = is_nan (latitude p0)
    /\ is_nan max_lat = is_nan (latitude p0)
    /\ is_nan min_lon = is_nan (longitude p0)
    /\ is_nan max_lon = is_nan (longitude p0).
Proof.
  intros E.
  destruct (bounds_nonempty t p0 rest E) as (a & b & c & d & Hb & Ha & Hbb & Hc & Hd).
  rewrite E in Ha, Hbb, Hc, Hd. cbn [map] in *.
  destruct (py_min_spec (latitude p0) (map latitude rest)) as (a' & Ha' & _ & Na & _).
  destruct (py_min_spec (longitude p0) (map longitude rest)) as (b' & Hb' & _ & Nb & _).
  destruct (py_max_spec (latitude p0) (map latitude rest)) as (c' & Hc' & _ & Nc & _).
  destruct (py_max_spec (longitude p0) (map longitude rest)) as (d' & Hd' & _ & Nd & _).
  rewrite Ha in Ha'; rewrite Hbb in Hb'; rewrite Hc in Hc'; rewrite Hd in Hd'.
  injection Ha' as <-; injection Hb' as <-; injection Hc' as <-; injection Hd' as <-.
  exists a, b, c, d. now split_and!.
Qed.

(** X9, witness: a NaN latitude first hides the latitude 10 that follows; a
    NaN latitude second is passed over. *)
Lemma bounds_nan_first_point_samples :
  bounds (mk_GPSTrack [GPSPoint_of_coordinates NaN (Finite 20); no_fix_point] "" None)
  = Ret (Some (NaN, Finite 20, NaN, Finite 20))
  /\ bounds (mk_GPSTrack [no_fix_point; GPSPoint_of_coordinates NaN (Finite 30)] "" None)
     = Ret (Some (Finite 10, Finite 20, Finite 10, Finite 30))
  /\ exists min_lat min_lon max_lat max_lon,
       bounds (mk_GPSTrack [GPSPoint_of_coordinates NaN (Finite 20); no_fix_point] "" None)
       = Ret (Some (min_lat, min_lon, max_lat, max_lon))
       /\ is_nan min_lat = true /\ is_nan max_lat = true
       /\ is_nan min_lon = false /\ is_nan max_lon = false.
Proof.
  split; [reflexivity|]. split; [reflexivity|].
  exact (bounds_nan_first_point
           (mk_GPSTrack [GPSPoint_of_coordinates NaN (Finite 20); no_fix_point] "" None)
           _ _ eq_refl).
Defined.

Lemma filter_valid_Some (h h' : gmap loc GPSTrack) (self new : loc) :
  filter_valid h self = Some (h', new) ->
  exists t,
    h !! self = Some t
    /\ h' !! new = Some (mk_GPSTrack (List.filter is_valid (points t))
                                     (source_file t) (device_info t))
    /\ h !! new = None.
Proof.
  unfold filter_valid. destruct (h !! self) as [t|] eqn:Ht; [|discriminate].
  intros [= <- <-]. exists t. split_and!; [reflexivity | apply lookup_insert_eq |].
  apply not_elem_of_dom, is_fresh.
Qed.

Lemma filter_filter_same {A : Type} (f : A -> bool) (l : list A) :
  List.filter f (List.filter f l) = List.filter f l.
Proof.
  induction l as [|x l IH]; cbn [List.filter]; [reflexivity|].
  destruct (f x) eqn:E; cbn [List.filter]; rewrite ?E, IH; reflexivity.
Qed.

Lemma filter_length_le {A : Type} (f : A -> bool) (l : list A) :
  length (List.filter f l) <= length l.
Proof.
  induction l as [|x l IH]; cbn [List.filter]; [reflexivity|].
  destruct (f x); simpl; lia.
Qed.

(** X10.  The track [filter_valid] returns holds valid points only and no
    more points than the receiver; filtering it once more returns another
    new track with the very same points. *)
Theorem filter_valid_idempotent (h h1 : gmap loc GPSTrack) (self n1 : loc) :
  filter_valid h self = Some (h1, n1) ->
  exists t t1,
    h !! self = Some t /\ h1 !! n1 = Some t1
    /\ Forall valid_sample (points t1)
    /\ length (points t1) <= length (points t)
    /\ exists h2 n2 t2,
         filter_valid h1 n1 = Some (h2, n2) /\ h2 !! n2 = Some t2
         /\ n2 <> n1 /\ points t2 = points t1
         /\ source_file t2 = source_file t /\ device_info t2 = device_info t.
Proof.
  intros (t & Ht & H1 & _)%filter_valid_Some.
  exists t. eexists. split; [exact Ht|]. split; [exact H1|]. cbn [points].
  split_and!.
  - apply List.Forall_forall. intros p [_ Hp]%filter_In. now apply is_valid_spec.
  - apply filter_length_le.
  - destruct (filter_valid h1 n1) as [[h2 n2]|] eqn:F.
    + destruct (filter_valid_Some _ _ _ _ F) as (t1' & H1' & H2 & Hfresh).
      rewrite H1 in H1'. injection H1' as <-.
      exists h2, n2. eexists. split; [reflexivity|]. split; [exact H2|].
      cbn [points source_file device_info]. split_and!; try reflexivity.
      * intros ->. congruence.
      * apply filter_filter_same.
    + unfold filter_valid in F. rewrite H1 in F. discriminate.
Qed.

(** X10, witness: the sample heap. *)
Lemma filter_valid_idempotent_sample :
  exists h1 n1,
    filter_valid sample_heap 1%positive = Some (h1, n1)
    /\ exists t t1,
         sample_heap !! 1%positive = Some t /\ h1 !! n1 = Some t1
         /\ Forall valid_sample (points t1)
         /\ length (points t1) <= length (points t)
         /\ exists h2 n2 t2,
              filter_valid h1 n1 = Some (h2, n2) /\ h2 !! n2 = Some t2
              /\ n2 <> n1 /\ points t2 = points t1
              /\ source_file t2 = source_file t /\ device_info t2 = device_info t.
Proof.
  assert (H : exists h1 n1, filter_valid sample_heap 1%positive = Some (h1, n1)).
  { unfold filter_valid, sample_heap. rewrite lookup_singleton_eq. now do 2 eexists. }
  destruct H as (h1 & n1 & H). exists h1, n1. split; [exact H|].
  exact (filter_valid_idempotent sample_heap h1 1%positive n1 H).
Defined.

(** X11.  The bounds of a track that [filter_valid] returns lie on the
    globe: either there are none (no valid point), or they are finite with
    -90 <= min_lat <= max_lat <= 90 and -180 <= min_lon <= max_lon <= 180. *)
Theorem filtered_bounds_on_globe (h h1 : gmap loc GPSTrack) (self n1 : loc)
    (t1 : GPSTrack) :
  filter_valid h self = Some (h1, n1) -> h1 !! n1 = Some t1 ->
  (bounds t1 = Ret None /\ points t1 = [])
  \/ exists a b c d : Q,
       bounds t1 = Ret (Some (Finite a, Finite b, Finite c, Finite d))
       /\ (-90 <= a)%Q /\ (a <= c)%Q /\ (c <= 90)%Q
       /\ (-180 <= b)%Q /\ (b <= d)%Q /\ (d <= 180)%Q.
Proof.
  intros (t & Ht & H1 & _)%filter_valid_Some E1. rewrite H1 in E1. injection E1 as <-.
  set (t1 := mk_GPSTrack _ _ _).
  assert (Hvalid : forall p, In p (points t1) -> valid_sample p).
  { intros p [_ Hp]%filter_In. now apply is_valid_spec. }
  destruct (points t1) as [|p0 rest] eqn:E.
  - left. split; [|reflexivity]. unfold bounds. now rewrite E.
  - right. destruct (bounds_extremes t1 p0 rest E)
      as (a & b & c & d & Hb & Ia & Ic & Ib & Id & Hlat & Hlon).
    rewrite E in Ia, Ic, Ib, Id, Hlat, Hlon.
    assert (Nlat : Forall (fun p => is_nan (latitude p) = false) (p0 :: rest)).
    { apply List.Forall_forall. intros p Hp.
      destruct (Hvalid p Hp) as (la & lo & -> & _). reflexivity. }
    assert (Nlon : Forall (fun p => is_nan (longitude p) = false) (p0 :: rest)).
    { apply List.Forall_forall. intros p Hp.
      destruct (Hvalid p Hp) as (la & lo & _ & -> & _). reflexivity. }
    specialize (Hlat Nlat). specialize (Hlon Nlon).
    rewrite List.Forall_forall in Hlat, Hlon.
    apply in_map_iff in Ia as (pa & <- & Hpa), Ic as (pc & <- & Hpc),
      Ib as (pb & <- & Hpb), Id as (pd & <- & Hpd).
    destruct (Hlat pc Hpc) as (Hac & _). destruct (Hlon pd Hpd) as (Hbd & _).
    destruct (Hvalid pa Hpa) as (la & ? & Ela & _ & Hla & Hla' & _).
    destruct (Hvalid pc Hpc) as (lc & ? & Elc & _ & Hlc & Hlc' & _).
    destruct (Hvalid pb Hpb) as (? & lb & _ & Elb & _ & _ & Hlb & Hlb' & _).
    destruct (Hvalid pd Hpd) as (? & ld & _ & Eld & _ & _ & Hld & Hld' & _).
    rewrite Ela, Elc in Hac. rewrite Elb, Eld in Hbd. rewrite Ela, Elb, Elc, Eld in Hb.
    cbn [fle] in Hac, Hbd. apply Qle_bool_iff in Hac, Hbd.
    exists la, lb, lc, ld. now split_and!.
Qed.

(** X11, witness: the sample heap. *)
Lemma filtered_bounds_on_globe_sample :
  exists h1 n1 t1,
    filter_valid sample_heap 1%positive = Some (h1, n1) /\ h1 !! n1 = Some t1
    /\ ((bounds t1 = Ret None /\ points t1 = [])
        \/ exists a b c d : Q,
             bounds t1 = Ret (Some (Finite a, Finite b, Finite c, Finite d))
             /\ (-90 <= a)%Q /\ (a <= c)%Q /\ (c <= 90)%Q
             /\ (-180 <= b)%Q /\ (b <= d)%Q /\ (d <= 180)%Q).
Proof.
  assert (H : exists h1 n1, filter_valid sample_heap 1%positive = Some (h1, n1)).
  { unfold filter_valid, sample_heap. rewrite lookup_singleton_eq. now do 2 eexists. }
  destruct H as (h1 & n1 & H).
  destruct (filter_valid_Some _ _ _ _ H) as (t & _ & H1 & _).
  exists h1, n1. eexists. split; [exact H|]. split; [exact H1|].
  exact (filtered_bounds_on_globe sample_heap h1 1%positive n1 _ H H1).
Defined.

(* ------------------------------------------------------------------ *)
(** ** Duration and the calendar *)

Lemma real_bounds (d : datetime) :
  real d ->
  (1 <= dt_year d <= 9999 /\ 1 <= dt_month d <= 12
   /\ 1 <= dt_day d <= days_in_month (dt_year d) (dt_month d)
   /\ 0 <= dt_hour d <= 23 /\ 0 <= dt_minute d <= 59 /\ 0 <= dt_second d <= 59)%Z.
Proof.
  unfold real, real_datetime. rewrite !andb_true_iff, !Z.leb_le. tauto.
Qed.

Lemma days_before_year_mono (y1 y2 : Z) :
  (y1 <= y2)%Z -> (days_before_year y1 <= days_before_year y2)%Z.
Proof. unfold days_before_year. intros H. cbv zeta. Z.div_mod_to_equations. lia. Qed.

Lemma days_before_year_succ (y : Z) :
  days_before_year (y + 1)
  = (days_before_year y + 365 + (if is_leap y then 1 else 0))%Z.
Proof.
  unfold days_before_year, is_leap. cbv zeta.
  replace (y + 1 - 1)%Z with y by lia.
  destruct (Z.eqb_spec (y mod 4) 0), (Z.eqb_spec (y mod 100) 0),
    (Z.eqb_spec (y mod 400) 0); cbn [andb orb negb];
    Z.div_mod_to_equations; lia.
Qed.

Ltac month_cases m :=
  let H := fresh "Hm" in
  assert (H : (m = 1 \/ m = 2 \/ m = 3 \/ m = 4 \/ m = 5 \/ m = 6 \/ m = 7
               \/ m = 8 \/ m = 9 \/ m = 10 \/ m = 11 \/ m = 12)%Z) by lia;
  repeat (destruct H as [H|H]); subst m.

(** The month tables at a literal month, the leap day left symbolic. *)
Ltac month_tables :=
  repeat match goal with
  | |- context [days_before_month ?y ?k] =>
      let r := eval cbv [days_before_month DAYS_BEFORE_MONTH nth Z.to_nat Pos.to_nat
                         Pos.iter_op Init.Nat.add Z.ltb Z.compare Pos.compare
                         Pos.compare_cont andb] in (days_before_month y k) in
      change (days_before_month y k) with r
  | |- context [days_in_month ?y ?k] =>
      let r := eval cbv [days_in_month Z.eqb Pos.eqb orb] in (days_in_month y k) in
      change (days_in_month y k) with r
  end.

Lemma day_of_year_bounds (y m d : Z) :
  (1 <= m <= 12)%Z -> (1 <= d <= days_in_month y m)%Z ->
  (1 <= days_before_month y m + d <= 365 + (if is_leap y then 1 else 0))%Z.
Proof.
  intros Hm. month_cases m; month_tables; destruct (is_leap y); lia.
Qed.

Lemma days_before_month_lt (y m1 m2 d1 d2 : Z) :
  (1 <= m1)%Z -> (m1 < m2)%Z -> (m2 <= 12)%Z ->
  (d1 <= days_in_month y m1)%Z -> (1 <= d2)%Z ->
  (days_before_month y m1 + d1 < days_before_month y m2 + d2)%Z.
Proof.
  intros H1 H12 H2.
  assert (Hm1 : (1 <= m1 <= 12)%Z) by lia. assert (Hm2 : (1 <= m2 <= 12)%Z) by lia.
  month_cases m1; month_cases m2; try lia; month_tables; destruct (is_leap y); lia.
Qed.

Lemma toordinal_lt_year (a b : datetime) :
  real a -> real b -> (dt_year a < dt_year b)%Z -> (toordinal a < toordinal b)%Z.
Proof.
  intros (_ & Hma & Hda & _)%real_bounds (_ & Hmb & Hdb & _)%real_bounds Hy.
  unfold toordinal.
  pose proof (day_of_year_bounds _ _ _ Hma Hda) as Ha.
  pose proof (day_of_year_bounds _ _ _ Hmb Hdb) as Hb.
  pose proof (days_before_year_succ (dt_year a)) as Hs.
  pose proof (days_before_year_mono (dt_year a + 1) (dt_year b) ltac:(lia)) as Hmono.
  lia.
Qed.

Lemma lex_lt_instant (a b : datetime) :
  real a -> real b -> dt_lt a b = true -> (instant a < instant b)%Z.
Proof.
  intros Ra Rb. unfold dt_lt, dt_fields. cbn [lex_lt].
  pose proof (real_bounds a Ra) as (Hya & Hma & Hda & Hha & Hmia & Hsa).
  pose proof (real_bounds b Rb) as (Hyb & Hmb & Hdb & Hhb & Hmib & Hsb).
  unfold instant.
  destruct (Z.ltb_spec (dt_year a) (dt_year b)) as [Hy|Hy]; cbn [orb].
  { intros _. pose proof (toordinal_lt_year a b Ra Rb Hy). lia. }
  destruct (Z.eqb_spec (dt_year a) (dt_year b)) as [Ey|Ey]; cbn [andb]; [|discriminate].
  unfold toordinal. rewrite Ey in *.
  destruct (Z.ltb_spec (dt_month a) (dt_month b)) as [Hm|Hm]; cbn [orb].
  { intros _.
    pose proof (days_before_month_lt (dt_year b) (dt_month a) (dt_month b)
                  (dt_day a) (dt_day b) ltac:(lia) Hm ltac:(lia) ltac:(lia) ltac:(lia)).
    lia. }
  destruct (Z.eqb_spec (dt_month a) (dt_month b)) as [Em|Em]; cbn [andb]; [|discriminate].
  rewrite Em in *.
  destruct (Z.ltb_spec (dt_day a) (dt_day b)) as [Hd|Hd]; cbn [orb]; [intros _; lia|].
  destruct (Z.eqb_spec (dt_day a) (dt_day b)) as [Ed|Ed]; cbn [andb]; [|discriminate].
  destruct (Z.ltb_spec (dt_hour a) (dt_hour b)) as [Hh|Hh]; cbn [orb]; [intros _; lia|].
  destruct (Z.eqb_spec (dt_hour a) (dt_hour b)) as [Eh|Eh]; cbn [andb]; [|discriminate].
  destruct (Z.ltb_spec (dt_minute a) (dt_minute b)) as [Hmi|Hmi]; cbn [orb]; [intros _; lia|].
  destruct (Z.eqb_spec (dt_minute a) (dt_minute b)) as [Emi|Emi]; cbn [andb]; [|discriminate].
  destruct (Z.ltb_spec (dt_second a) (dt_second b)) as [Hs|Hs]; cbn [orb]; [intros _; lia|].
  rewrite andb_false_r. discriminate.
Qed.

Lemma dt_trichotomy (a b : datetime) :
  dt_lt a b = true \/ a = b \/ dt_lt b a = true.
Proof.
  destruct a as [ya ma da ha mia sa], b as [yb mb db hb mib sb].
  unfold dt_lt, dt_fields. cbn [lex_lt dt_year dt_month dt_day dt_hour dt_minute dt_second].
  destruct (Z.lt_trichotomy ya yb) as [H|[->|H]];
    [left; apply orb_true_iff; left; now apply Z.ltb_lt | |
     right; right; apply orb_true_iff; left; now apply Z.ltb_lt].
  rewrite !Z.ltb_irrefl, !Z.eqb_refl. cbn [orb andb].
  destruct (Z.lt_trichotomy ma mb) as [H|[->|H]];
    [left; apply orb_true_iff; left; now apply Z.ltb_lt | |
     right; right; apply orb_true_iff; left; now apply Z.ltb_lt].
  rewrite !Z.ltb_irrefl, !Z.eqb_refl. cbn [orb andb].
  destruct (Z.lt_trichotomy da db) as [H|[->|H]];
    [left; apply orb_true_iff; left; now apply Z.ltb_lt | |
     right; right; apply orb_true_iff; left; now apply Z.ltb_lt].
  rewrite !Z.ltb_irrefl, !Z.eqb_refl. cbn [orb andb].
  destruct (Z.lt_trichotomy ha hb) as [H|[->|H]];
    [left; apply orb_true_iff; left; now apply Z.ltb_lt | |
     right; right; apply orb_true_iff; left; now apply Z.ltb_lt].
  rewrite !Z.ltb_irrefl, !Z.eqb_refl. cbn [orb andb].
  destruct (Z.lt_trichotomy mia mib) as [H|[->|H]];
    [left; apply orb_true_iff; left; now apply Z.ltb_lt | |
     right; right; apply orb_true_iff; left; now apply Z.ltb_lt].
  rewrite !Z.ltb_irrefl, !Z.eqb_refl. cbn [orb andb].
  destruct (Z.lt_trichotomy sa sb) as [H|[->|H]];
    [left; apply orb_true_iff; left; now apply Z.ltb_lt | |
     right; right; apply orb_true_iff; left; now apply Z.ltb_lt].
  right; left; reflexivity.
Qed.

Lemma total_seconds_instant (a b : datetime) :
  total_seconds_between a b = (instant a - instant b)%Z.
Proof. unfold total_seconds_between, instant. ring. Qed.

Lemma total_seconds_sign (a b : datetime) :
  real a -> real b ->
  (dt_lt a b = true <-> (0 < total_seconds_between b a)%Z)
  /\ (a = b <-> total_seconds_between b a = 0%Z)
  /\ (dt_lt b a = true <-> (total_seconds_between b a < 0)%Z).
Proof.
  intros Ra Rb. rewrite total_seconds_instant.
  pose proof (lex_lt_instant a b Ra Rb) as Hab.
  pose proof (lex_lt_instant b a Rb Ra) as Hba.
  destruct (dt_trichotomy a b) as [H|[H|H]].
  - specialize (Hab H). split_and!; split; try lia; try (intros; assumption).
    + intros ->. lia.
    + intros H'. specialize (Hba H'). lia.
  - subst b. split_and!; split; try lia; try reflexivity.
    + intros H'. specialize (Hab H'). lia.
    + intros H'. specialize (Hba H'). lia.
  - specialize (Hba H). split_and!; split; try lia; try (intros; assumption).
    + intros H'. specialize (Hab H'). lia.
    + intros ->. lia.
Qed.

Lemma last_app_singleton {A : Type} (l : list A) (x d : A) : List.last (l ++ [x]) d = x.
Proof. apply last_last. Qed.

(** X12.  [duration] looks at the first and the last point only.  It is
    absent for fewer than two points and when one of the two has no
    timestamp.  Otherwise it is the number of seconds from the first
    timestamp to the last: positive when the first is the earlier one, zero
    when the two are the same instant, and negative when the track ends
    before it starts. *)
Theorem duration_of_endpoints (t : GPSTrack) :
  (length (points t) < 2 -> duration t = None)
  /\ (forall p0 middle p1,
        points t = p0 :: middle ++ [p1] ->
        (timestamp p0 = None \/ timestamp p1 = None -> duration t = None)
        /\ (forall first last,
              timestamp p0 = Some first -> timestamp p1 = Some last ->
              duration t = Some (float_of_int (total_seconds_between last first))
              /\ (real first -> real last ->
                  (dt_lt first last = true <-> (0 < total_seconds_between last first)%Z)
                  /\ (first = last <-> total_seconds_between last first = 0%Z)
                  /\ (dt_lt last first = true
                      <-> (total_seconds_between last first < 0)%Z)))).
Proof.
  split.
  - unfold duration. destruct (points t) as [|p [|q rest]]; cbn [length];
      try reflexivity. lia.
  - intros p0 middle p1 E.
    assert (D : duration t = match timestamp p0, timestamp p1 with
                             | Some first, Some last =>
                                 Some (float_of_int (total_seconds_between last first))
                             | _, _ => None
                             end).
    { unfold duration. rewrite E.
      destruct middle as [|q middle]; cbn [app]; [reflexivity|].
      change (q :: middle ++ [p1]) with ((q :: middle) ++ [p1]).
      now rewrite last_app_singleton. }
    split.
    + rewrite D. intros [-> | ->]; [reflexivity | now destruct (timestamp p0)].
    + intros first last E0 E1. rewrite D, E0, E1. split; [reflexivity|].
      apply total_seconds_sign.
Qed.

(** X12, witness: a track that ends one day and one second before it
    starts. *)
Lemma duration_of_endpoints_backwards :
  let start := mk_datetime 2024 3 1 0 0 0 in
  let stop := mk_datetime 2024 2 28 23 59 59 in
  let at_time d :=
    GPSPoint_init (Finite 10) (Finite 20) (Some (Some d))
                  None None None None None None None None in
  let t := mk_GPSTrack [at_time start; no_fix_point; at_time stop] "" None in
  duration t = Some (float_of_int (-86401))
  /\ dt_lt stop start = true.
Proof.
  intros start stop at_time t.
  destruct (duration_of_endpoints t) as (_ & H).
  destruct (H (at_time start) [no_fix_point] (at_time stop) eq_refl) as (_ & H').
  destruct (H' start stop eq_refl eq_refl) as (Hd & Hsign).
  split; [exact Hd|].
  apply Hsign; [reflexivity | reflexivity | vm_compute; reflexivity].
Defined.

(* ------------------------------------------------------------------ *)
(** ** The exporters *)

Lemma parsed_track_shape (filepath : string) (content : bytes) (t : GPSTrack) :
  parse filepath (Readable content) = Some (Ret t) ->
  Forall decoded_shape (points t)
  /\ source_file t = filepath
  /\ device_info t = Some {[ "format"%string := "YOUQINGGPS"%string ]}.
Proof.
  intros ->%parse_Ret_inv. cbn [points source_file device_info].
  split; [|now split]. apply List.Forall_forall. intros p. apply samples_at_shape.
Qed.

Lemma format_tag_truthy :
  dict_truthy (Some {[ "format"%string := "YOUQINGGPS"%string ]}) = true.
Proof.
  cbn [dict_truthy]. apply negb_true_iff, bool_decide_eq_false.
  apply map_non_empty_singleton.
Qed.

Section ExporterFacts.

Variable Path_stem : string -> string.
Variable isoformat : datetime -> string.
Variable str_of_nat : nat -> string.
Variable mkdir_parent : string -> bool.

Lemma export_gpx_point_decoded (p : GPSPoint) :
  decoded_shape p ->
  exists g, export_gpx_point p = Ret g /\ gpx_of_decoded p g.
Proof.
  intros ((lat & lon & v & Hlat & Hlon & Hv & Hv0 & Hv500) & Hh & Ha & _).
  unfold export_gpx_point. rewrite Hv, Hh, Ha.
  cbn [flt float_of_int fdiv Qis_zero Qnum Z.eqb bind].
  destruct (Qle_bool v (inject_Z 0)) eqn:E; cbn [negb bind].
  - eexists; split; [reflexivity|]. unfold gpx_of_decoded.
    cbn [gpx_latitude gpx_longitude gpx_time gpx_elevation gpx_course gpx_speed].
    split_and!; try reflexivity. exists v. split_and!; try reflexivity; try assumption.
    intros Hn. apply Qle_bool_iff in E. change (inject_Z 0) with 0%Q in E.
    exfalso. apply Hn. lra.
  - eexists; split; [reflexivity|]. unfold gpx_of_decoded.
    cbn [gpx_latitude gpx_longitude gpx_time gpx_elevation gpx_course gpx_speed].
    split_and!; try reflexivity. exists v. split_and!; try reflexivity; try assumption.
    intros Hz. rewrite Hz in E. discriminate E.
Qed.

Lemma export_gpx_points_decoded (pts : list GPSPoint) :
  Forall decoded_shape pts ->
  exists segment, export_gpx_points pts = Ret segment
    /\ Forall2 gpx_of_decoded pts segment.
Proof.
  induction 1 as [|p pts Hp _ IH]; cbn [export_gpx_points].
  - exists []. split; [reflexivity | constructor].
  - destruct (export_gpx_point_decoded p Hp) as (g & -> & Hg).
    destruct IH as (segment & -> & Hs). cbn [bind].
    exists (g :: segment). split; [reflexivity | now constructor].
Qed.

(** X13.  A track that [parse] returns exports to GPX without raising:
    the document names [YOUQINGGPS] as its creator and has one track with
    one segment, whose points are those of the track, in order, with the
    same latitude, longitude and time.  No point has an elevation or a
    course; a point has a speed exactly when the decoded speed is not
    zero, and then it is the decoded speed divided by 3.6. *)
Theorem parsed_track_to_gpx (filepath : string) (content : bytes) (t : GPSTrack) :
  parse filepath (Readable content) = Some (Ret t) ->
  exists name segment,
    export_gpx Path_stem t
    = Ret (mk_GPX name "GPS track extracted from dashcam video"
                  (Some "YOUQINGGPS"%string) [[segment]])
    /\ Forall2 gpx_of_decoded (points t) segment
    /\ length segment = length (points t).
Proof.
  intros (Hshape & Hsrc & Hdev)%parsed_track_shape.
  destruct (export_gpx_points_decoded _ Hshape) as (segment & Hseg & Hall).
  unfold export_gpx. rewrite Hseg, Hdev, format_tag_truthy.
  cbn [bind default from_option id].
  rewrite lookup_singleton_eq. cbn [default from_option id].
  do 2 eexists. split; [reflexivity|]. split; [assumption|].
  symmetry. eapply Forall2_length. eassumption.
Qed.

(** X14.  [export_kml] gives nothing but the document and folder names
    for a track without points.  For a track with points it gives one
    line with one coordinate triple per point, in order, whose third
    component is 0 when the point has no altitude or altitude zero and the
    altitude otherwise; the altitude mode is absolute exactly when some
    point has an altitude, be it zero.  It gives a start marker at the
    first point and an end marker at the last, each described exactly when
    the point has a timestamp; the two coincide for a single point. *)
Theorem export_kml_shape (track : GPSTrack) :
  let k := export_kml Path_stem isoformat str_of_nat track in
  (points track = [] -> kml_linestrings k = [] /\ kml_points k = [])
  /\ (forall start rest,
        points track = start :: rest ->
        let stop := List.last rest start in
        exists route marker_start marker_end,
          kml_linestrings k = [route]
          /\ kml_points k = [marker_start; marker_end]
          /\ Forall2 (fun p c =>
                        c = (longitude p, latitude p, or_zero (altitude p))
                        /\ (altitude p = None -> snd c = Finite 0)
                        /\ (forall a, altitude p = Some (Finite a) ->
                              (a == 0)%Q -> snd c = Finite 0)
                        /\ (forall a, altitude p = Some (Finite a) ->
                              ~ (a == 0)%Q -> snd c = Finite a))
                     (points track) (ls_coords route)
          /\ (ls_altitudemode route = absolute
              <-> exists p, In p (points track) /\ altitude p <> None)
          /\ (ls_altitudemode route = clamptoground
              <-> forall p, In p (points track) -> altitude p = None)
          /\ pt_coords marker_start = [(longitude start, latitude start)]
          /\ pt_coords marker_end = [(longitude stop, latitude stop)]
          /\ (pt_description marker_start = None <-> timestamp start = None)
          /\ (pt_description marker_end = None <-> timestamp stop = None)
          /\ (rest = [] -> pt_coords marker_start = pt_coords marker_end)).
Proof.
  cbn zeta. split.
  - intros E. unfold export_kml. rewrite E. cbn [kml_linestrings kml_points]. now split.
  - intros start rest E. unfold export_kml. rewrite E.
    cbn [kml_linestrings kml_points]. do 3 eexists.
    split; [reflexivity|]. split; [reflexivity|].
    cbn [ls_coords ls_altitudemode kml_marker pt_coords pt_description].
    split_and!.
    + generalize (start :: rest) as pts. intros pts.
      induction pts as [|p pts IH]; cbn [map]; constructor; [|exact IH].
      split_and!; [reflexivity | | |]; cbn [snd].
      * now intros ->.
      * intros a -> Ha. cbn [or_zero feq float_of_int].
        apply Qeq_bool_iff in Ha. change (inject_Z 0) with 0%Q. now rewrite Ha.
      * intros a -> Ha. cbn [or_zero feq float_of_int].
        destruct (Qeq_bool a (inject_Z 0)) eqn:Eq; [|reflexivity].
        apply Qeq_bool_iff in Eq. contradiction.
    + destruct (existsb _ (start :: rest)) eqn:Ex.
      * split; [intros _|reflexivity].
        apply existsb_exists in Ex as (p & Hp & Ha). exists p. split; [assumption|].
        now destruct (altitude p).
      * split; [discriminate|]. intros (p & Hp & Ha). exfalso.
        assert (existsb (fun p => match altitude p with Some _ => true | None => false end)
                        (start :: rest) = true).
        { apply existsb_exists. exists p. split; [assumption|].
          now destruct (altitude p). }
        congruence.
    + destruct (existsb _ (start :: rest)) eqn:Ex.
      * split; [discriminate|]. intros Hall.
        apply existsb_exists in Ex as (p & Hp & Ha). rewrite (Hall p Hp) in Ha.
        discriminate.
      * split; [intros _|reflexivity]. intros p Hp.
        destruct (altitude p) eqn:Ea; [|reflexivity]. exfalso.
        assert (existsb (fun p => match altitude p with Some _ => true | None => false end)
                        (start :: rest) = true).
        { apply existsb_exists. exists p. split; [assumption|]. now rewrite Ea. }
        congruence.
    + reflexivity.
    + reflexivity.
    + destruct (timestamp start); split; congruence.
    + destruct (timestamp (List.last rest start)); split; congruence.
    + now intros ->.
Qed.

Lemma geojson_point_features_length (i : nat) (pts : list GPSPoint) :
  length (geojson_point_features isoformat i pts) = length pts.
Proof.
  revert i; induction pts as [|p pts IH]; intros i; cbn [geojson_point_features length];
    [reflexivity | now rewrite IH].
Qed.

Lemma geojson_point_features_nth (i k : nat) (pts : list GPSPoint) (p : GPSPoint) :
  nth_error pts k = Some p ->
  nth_error (geojson_point_features isoformat i pts) k
  = Some (geojson_point_feature isoformat (i + k) p).
Proof.
  revert i k; induction pts as [|q pts IH]; intros i [|k]; cbn [nth_error];
    try discriminate.
  - intros [= ->]. cbn [geojson_point_features nth_error]. now rewrite Nat.add_0_r.
  - intros H. cbn [geojson_point_features nth_error].
    rewrite (IH (S i) k H). f_equal. f_equal. lia.
Qed.

Lemma geojson_point_feature_keys (i : nat) (p : GPSPoint) :
  let f := geojson_point_feature isoformat i p in
  geometry f = Point (longitude p, latitude p)
  /\ In ("index"%string, VInt (Z.of_nat i)) (properties f)
  /\ (In "timestamp"%string (map fst (properties f)) <-> timestamp p <> None)
  /\ (In "altitude_m"%string (map fst (properties f)) <-> altitude p <> None)
  /\ (In "gsensor"%string (map fst (properties f)) <-> gsensor_x p <> None).
Proof.
  cbn zeta. unfold geojson_point_feature. cbn [geometry properties].
  split; [reflexivity|]. split; [right; now left|].
  destruct (timestamp p), (altitude p), (gsensor_x p); cbn [app map fst In];
    split_and!; (split; [intros H; repeat (destruct H as [H|H]);
                         first [discriminate H | congruence | contradiction]
                        | intros H; first [congruence | tauto]]).
Qed.

(** X15.  [export_geojson] never raises.  A track without points gives no
    feature.  A track of [n] points gives [n + 1] features: first the route,
    a line whose coordinates are the pairs longitude, latitude of the points
    in order, with the number of points, the bounds, and the duration
    exactly when the track has one; then one feature per point, in order,
    the [i]-th with index [i], located at longitude, latitude, and with a
    timestamp, an altitude or an accelerometer entry exactly when the point
    has a timestamp, an altitude or an x reading. *)
Theorem export_geojson_features (track : GPSTrack) :
  exists features,
    export_geojson Path_stem isoformat track = Ret features
    /\ (points track = [] -> features = [])
    /\ (points track <> [] ->
        exists route point_features,
          features = route :: point_features
          /\ geometry route
             = LineString (map (fun p => [longitude p; latitude p]) (points track))
          /\ In ("point_count"%string, VInt (Z.of_nat (length (points track))))
                (properties route)
          /\ In "bounds"%string (map fst (properties route))
          /\ (In "duration_seconds"%string (map fst (properties route))
              <-> duration track <> None)
          /\ length point_features = length (points track)
          /\ forall i p,
               nth_error (points track) i = Some p ->
               exists f,
                 nth_error point_features i = Some f
                 /\ geometry f = Point (longitude p, latitude p)
                 /\ In ("index"%string, VInt (Z.of_nat i)) (properties f)
                 /\ (In "timestamp"%string (map fst (properties f))
                     <-> timestamp p <> None)
                 /\ (In "altitude_m"%string (map fst (properties f))
                     <-> altitude p <> None)
                 /\ (In "gsensor"%string (map fst (properties f))
                     <-> gsensor_x p <> None)).
Proof.
  unfold export_geojson. destruct (points track) as [|p0 rest] eqn:E.
  - cbn [bind app geojson_point_features]. eexists. split; [reflexivity|].
    split; [reflexivity | congruence].
  - destruct (bounds_nonempty track p0 rest E) as (a & b & c & d & Hb & _).
    rewrite Hb. cbn [bind app]. eexists. split; [reflexivity|].
    split; [discriminate|]. intros _. do 2 eexists. split; [reflexivity|].
    cbn [geometry properties]. split_and!.
    + reflexivity.
    + right; right; now left.
    + destruct (duration track), (dict_truthy (device_info track));
        cbn [app map fst In]; tauto.
    + destruct (duration track), (dict_truthy (device_info track));
        cbn [app map fst In];
        (split; [intros H; repeat (destruct H as [H|H]);
                 first [discriminate H | congruence | contradiction]
                | intros H; first [congruence | tauto]]).
    + apply geojson_point_features_length.
    + intros i p Hp. eexists. split.
      * rewrite (geojson_point_features_nth 0 i _ p Hp). reflexivity.
      * apply (geojson_point_feature_keys (0 + i) p).
Qed.

Lemma writerow_export_csv_row (p : GPSPoint) :
  writerow CSV_COLUMNS (export_csv_row isoformat p)
  = Ret (map snd (export_csv_row isoformat p)).
Proof. reflexivity. Qed.

Lemma writerows_export_csv_rows (pts : list GPSPoint) :
  writerows CSV_COLUMNS (map (export_csv_row isoformat) pts)
  = Ret (map (fun p => map snd (export_csv_row isoformat p)) pts).
Proof.
  induction pts as [|p pts IH]; cbn [map writerows]; [reflexivity|].
  now rewrite writerow_export_csv_row, IH.
Qed.

(** X16.  [export_csv] never raises: every key of a row is a column of
    the header.  It writes the header and then one line per point, in
    order, each of eleven cells in the order of the header: the timestamp
    in ISO form or the empty string, latitude, longitude, the altitude or
    the empty string, speed, heading, fix quality, satellites, and each
    accelerometer axis or the empty string. *)
Theorem export_csv_lines (track : GPSTrack) :
  exists lines,
    export_csv isoformat track = Ret (map VStr CSV_COLUMNS :: lines)
    /\ length lines = length (points track)
    /\ forall i p,
         nth_error (points track) i = Some p ->
         let cell v := match v with Some x => VFloat x | None => VStr "" end in
         nth_error lines i
         = Some [VStr (match timestamp p with
                       | Some t => isoformat t
                       | None => ""%string
                       end);
                 VFloat (latitude p); VFloat (longitude p); cell (altitude p);
                 VFloat (speed p); VFloat (heading p); VInt (fix_quality p);
                 VInt (satellites p); cell (gsensor_x p); cell (gsensor_y p);
                 cell (gsensor_z p)].
Proof.
  unfold export_csv. rewrite writerows_export_csv_rows. cbn [bind].
  eexists. split; [reflexivity|]. split; [apply length_map|].
  intros i p Hp. cbn zeta. rewrite nth_error_map, Hp. reflexivity.
Qed.

Lemma export_gpx_parsed_Ret (filepath : string) (content : bytes) (t : GPSTrack) :
  parse filepath (Readable content) = Some (Ret t) ->
  exists gpx, export_gpx Path_stem t = Ret gpx.
Proof.
  intros (Hshape & _)%parsed_track_shape.
  destruct (export_gpx_points_decoded _ Hshape) as (segment & Hseg & _).
  unfold export_gpx. rewrite Hseg. cbn [bind]. now eexists.
Qed.

Lemma export_geojson_Ret (track : GPSTrack) :
  exists features, export_geojson Path_stem isoformat track = Ret features.
Proof.
  unfold export_geojson. destruct (points track) as [|p0 rest] eqn:E.
  - cbn [bind]. now eexists.
  - destruct (bounds_nonempty track p0 rest E) as (a & b & c & d & -> & _).
    cbn [bind]. now eexists.
Qed.

Lemma export_csv_Ret (track : GPSTrack) :
  exists lines, export_csv isoformat track = Ret lines.
Proof.
  unfold export_csv. rewrite writerows_export_csv_rows. cbn [bind]. now eexists.
Qed.

Lemma In_EXPORT_FORMATS (format : string) :
  In format EXPORT_FORMATS
  <-> format = "gpx"%string \/ format = "geojson"%string
      \/ format = "kml"%string \/ format = "csv"%string.
Proof.
  unfold EXPORT_FORMATS. cbn [In]. split.
  - intros [H|[H|[H|[H|[]]]]]; subst; tauto.
  - intros [H|[H|[H|H]]]; subst; tauto.
Qed.

(** X17.  [export_track] creates the directory of the output path
    before it looks at the format: when that raises, the exception leaves
    for every format, offered or not.  When it returns, [export_track] and
    [EXPORT_FORMATS] agree: for a track that [parse] returns, an exporter is
    called exactly when the format is one of [EXPORT_FORMATS], it is the one
    the format names and it builds its document without raising; and the
    [ValueError] for an unknown format is raised, and no exporter called,
    exactly when the format is not one of them. *)
Theorem export_track_formats (filepath : string) (content : bytes) (t : GPSTrack)
    (output_path format : string) :
  parse filepath (Readable content) = Some (Ret t) ->
  let r := export_track Path_stem isoformat str_of_nat mkdir_parent
                        t output_path format in
  (mkdir_parent output_path = false <-> r = MkdirRaised)
  /\ (mkdir_parent output_path = true ->
      (In format EXPORT_FORMATS <-> exists doc, r = Called (Ret doc))
      /\ (In format EXPORT_FORMATS <-> exists built, r = Called built)
      /\ (~ In format EXPORT_FORMATS <-> r = UnknownFormat)
      /\ (forall doc,
            r = Called (Ret doc) ->
            match doc with
            | GpxDocument gpx => format = "gpx"%string
                                 /\ export_gpx Path_stem t = Ret gpx
            | GeoJSONDocument features =>
                format = "geojson"%string
                /\ export_geojson Path_stem isoformat t = Ret features
            | KmlDocument kml => format = "kml"%string
                                 /\ kml = export_kml Path_stem isoformat str_of_nat t
            | CsvDocument lines => format = "csv"%string
                                   /\ export_csv isoformat t = Ret lines
            end)).
Proof.
  intros Hp. cbn zeta. rewrite In_EXPORT_FORMATS. unfold export_track.
  destruct (mkdir_parent output_path); cbn [negb].
  2:{ split; [split; reflexivity | discriminate]. }
  split.
  { split; [discriminate|]. intros H. exfalso. revert H.
    repeat destruct (String.eqb format _); discriminate. }
  intros _.
  destruct (export_gpx_parsed_Ret filepath content t Hp) as (gpx & ->).
  destruct (export_geojson_Ret t) as (features & ->).
  destruct (export_csv_Ret t) as (lines & ->).
  cbn [bind].
  destruct (String.eqb_spec format "gpx") as [->|N1].
  { split_and!.
    - split; [now eexists | tauto].
    - split; [now eexists | tauto].
    - split; [tauto | discriminate].
    - now intros doc [= <-]. }
  destruct (String.eqb_spec format "geojson") as [->|N2].
  { split_and!.
    - split; [now eexists | tauto].
    - split; [now eexists | tauto].
    - split; [tauto | discriminate].
    - now intros doc [= <-]. }
  destruct (String.eqb_spec format "kml") as [->|N3].
  { split_and!.
    - split; [now eexists | tauto].
    - split; [now eexists | tauto].
    - split; [tauto | discriminate].
    - now intros doc [= <-]. }
  destruct (String.eqb_spec format "csv") as [->|N4].
  { split_and!.
    - split; [now eexists | tauto].
    - split; [now eexists | tauto].
    - split; [tauto | discriminate].
    - now intros doc [= <-]. }
  split_and!.
  - split; [tauto | intros (doc & H); discriminate H].
  - split; [tauto | intros (doc & H); discriminate H].
  - split; [reflexivity | tauto].
  - intros doc H; discriminate H.
Qed.

End ExporterFacts.

(** X13, witness: the track read from [good_record]. *)
Lemma parsed_track_to_gpx_good_record :
  exists t,
    parse "trip.mp4" (Readable good_record) = Some (Ret t)
    /\ exists name segment,
         export_gpx (fun s => s) t
         = Ret (mk_GPX name "GPS track extracted from dashcam video"
                       (Some "YOUQINGGPS"%string) [[segment]])
         /\ Forall2 gpx_of_decoded (points t) segment
         /\ length segment = length (points t).
Proof.
  eexists. split; [vm_compute; reflexivity|].
  apply (parsed_track_to_gpx (fun s => s) "trip.mp4" good_record).
  vm_compute. reflexivity.
Defined.

(** X17, witness: the track read from [good_record], for the format
    [kml], for a format that is not offered, and with a directory that
    cannot be created. *)
Lemma export_track_formats_good_record :
  exists t,
    parse "trip.mp4" (Readable good_record) = Some (Ret t)
    /\ (exists doc,
          export_track (fun s => s) (fun _ => ""%string) (fun _ => ""%string)
                       (fun _ => true) t "out/trip.kml" "kml"
          = Called (Ret doc))
    /\ export_track (fun s => s) (fun _ => ""%string) (fun _ => ""%string)
                    (fun _ => true) t "out/trip.json" "json"
       = UnknownFormat
    /\ export_track (fun s => s) (fun _ => ""%string) (fun _ => ""%string)
                    (fun _ => false) t "out/trip.kml" "kml"
       = MkdirRaised.
Proof.
  eexists. split; [vm_compute; reflexivity|].
  split_and!.
  - apply (export_track_formats (fun s => s) (fun _ => ""%string) (fun _ => ""%string)
             (fun _ => true) "trip.mp4" good_record _ "out/trip.kml" "kml").
    + vm_compute. reflexivity.
    + reflexivity.
    + vm_compute. tauto.
  - apply (export_track_formats (fun s => s) (fun _ => ""%string) (fun _ => ""%string)
             (fun _ => true) "trip.mp4" good_record _ "out/trip.json" "json").
    + vm_compute. reflexivity.
    + reflexivity.
    + vm_compute. intros [H|[H|[H|[H|[]]]]]; discriminate H.
  - apply (export_track_formats (fun s => s) (fun _ => ""%string) (fun _ => ""%string)
             (fun _ => false) "trip.mp4" good_record _ "out/trip.kml" "kml").
    + vm_compute. reflexivity.
    + reflexivity.
Defined.
